(** * Command-line validation of the polaroid image decorator

    A shallow embedding of [cli/create_images/validate.py]:
    [parse_args], [sanitize_input_args] and [validate_paths].

    The module [create_images.constants] and the class [AspectRatio] are
    imported by the source but are not part of it.  The constants are
    therefore a parameter of the development (record [Constants]), and
    numeric edge sizes and aspect-ratio objects are abstract types: the
    code only stores, compares with [None] and returns them. *)

From stdpp Require Import gmap strings list fin_maps.

(** ** Outcomes of a Python call *)

(** The name of the message constant handed to the failure channel.
    [ARGUMENTS_REQUIRED] is argparse's own complaint about a missing
    positional; the other four are constants of [create_images.constants]. *)
Inductive Message :=
| TOO_MANY_SIZE_FLAGS
| EQUAL_BORDERS_WITH_ASPECT_RATIO
| TOO_MANY_ASPECT_RATIO_FLAGS
| INVALID_PATHS_PROVIDED
| ARGUMENTS_REQUIRED.

(** A call either returns, or leaves through [parser.error(msg)] (usage
    and message on stderr, exit status 2), through [sys.exit(msg)] with a
    string (message on stderr, exit status 1), or raises [KeyError], or
    lets an [OSError] of a file-system test pass through uncaught
    (nothing in the module has a [try]). *)
Inductive Outcome (A : Type) :=
| Return (a : A)
| ParserError (m : Message)
| SysExit (m : Message)
| KeyError (key : string)
| OSError (errno : Z).
Arguments Return {A} a.
Arguments ParserError {A} m.
Arguments SysExit {A} m.
Arguments KeyError {A} key.
Arguments OSError {A} errno.

#[global] Instance Outcome_ret : MRet Outcome := @Return.
#[global] Instance Outcome_bind : MBind Outcome := λ A B f m,
  match m with
  | Return a => f a
  | ParserError e => ParserError e
  | SysExit e => SysExit e
  | KeyError k => KeyError k
  | OSError e => OSError e
  end.

Definition exit_status {A} (o : Outcome A) : option Z :=
  match o with
  | ParserError _ => Some 2%Z
  | SysExit _ => Some 1%Z
  | Return _ | KeyError _ | OSError _ => None
  end.

Definition returns {A} (o : Outcome A) : Prop := ∃ a, o = Return a.

(** ** The namespace produced by argparse *)

(** Values argparse stores here: a [store_true] boolean or the list of
    positional strings. *)
Inductive ArgVal :=
| ABool (b : bool)
| AStrs (l : list string).

(** Python truthiness of such a value. *)
Definition truthy (v : ArgVal) : bool :=
  match v with
  | ABool b => b
  | AStrs l => negb (bool_decide (l = []))
  end.

(** [vars(namespace)]: a dict, iterated in insertion order. *)
Definition Args : Type := list (string * ArgVal).

Fixpoint args_get (args : Args) (key : string) : option ArgVal :=
  match args with
  | [] => None
  | (k, v) :: rest => if decide (k = key) then Some v else args_get rest key
  end.

(** [args[key]] *)
Definition getitem (args : Args) (key : string) : Outcome ArgVal :=
  match args_get args key with
  | Some v => Return v
  | None => KeyError key
  end.

(** [m[key]] and [key in m] on a constant table. *)
Definition map_getitem {V} (m : gmap string V) (key : string) : Outcome V :=
  match m !! key with
  | Some v => Return v
  | None => KeyError key
  end.

Definition contains {V} (m : gmap string V) (key : string) : bool :=
  bool_decide (is_Some (m !! key)).

(** The switches of one command line, by option string. *)
Record Switches := {
  sw_e : bool;      (* --e, --eq *)
  sw_nb : bool;     (* --nb, --no-border *)
  sw_xs : bool;     (* --xs, --extra-small *)
  sw_sm : bool;     (* --sm, --small *)
  sw_md : bool;     (* --md, --medium *)
  sw_lg : bool;     (* --lg, --large *)
  sw_xl : bool;     (* --xl, --extra-large *)
  sw_3_2 : bool;    (* --3-2, --2-3 *)
  sw_5_4 : bool;    (* --5-4, --4-5 *)
  sw_16_9 : bool;   (* --16-9, --9-16 *)
  sw_ig : bool      (* --ig, --insta, --instagram *)
}.

(** A command line that argparse accepts syntactically: the positional
    strings it collects for [image_paths], in order, and which switches
    occur.  This leaves out the runs that end inside
    [parser.parse_args()] itself: [-h]/[--help] (help text, exit status
    0), an unknown option, a value attached to a switch, positionals
    that an option separates (exit status 2 each).  None of them
    reaches [sanitize_input_args] or comes back from [parse_args], so
    what is stated of a returning [parse_args] holds of them trivially;
    nothing is stated here about which command lines argparse turns
    down. *)
Record CommandLine := {
  cl_paths : list string;
  cl_switches : Switches
}.

(** How many of the given switches are set. *)
Fixpoint count_set (bs : list bool) : nat :=
  match bs with
  | [] => 0
  | b :: bs => (if b then 1 else 0) + count_set bs
  end.

Definition size_count (s : Switches) : nat :=
  count_set [sw_nb s; sw_xs s; sw_sm s; sw_md s; sw_lg s; sw_xl s].

Definition ratio_count (s : Switches) : nat :=
  count_set [sw_3_2 s; sw_5_4 s; sw_16_9 s].

Definition with_ig (s : Switches) (b : bool) : Switches :=
  {| sw_e := sw_e s; sw_nb := sw_nb s; sw_xs := sw_xs s; sw_sm := sw_sm s;
     sw_md := sw_md s; sw_lg := sw_lg s; sw_xl := sw_xl s;
     sw_3_2 := sw_3_2 s; sw_5_4 := sw_5_4 s; sw_16_9 := sw_16_9 s;
     sw_ig := b |}.

(** [nargs] of the positional. *)
Inductive Nargs := OneOrMore | ZeroOrMore.

(** ** Path validation queries *)

(** What [Path.is_file()] and [Path.is_dir()] give: a boolean, or an
    [OSError] they re-raise.  pathlib turns a failing [stat] into
    [False] only for ENOENT, ENOTDIR, EBADF and ELOOP (and for a
    [ValueError]); any other [OSError], such as EACCES or ENAMETOOLONG,
    is raised again. *)
Inductive FsAnswer :=
| Answer (b : bool)
| Raises (errno : Z).

Inductive Query (P : Type) :=
| IsFile (p : P)
| IsDir (p : P).
Arguments IsFile {P} p.
Arguments IsDir {P} p.

Section Validate.

(** Edge sizes (Python floats, never computed with) and [AspectRatio]
    objects.  [ratio_bool] is the truth value Python gives an
    [AspectRatio] object in [not aspect_ratio]. *)
Context {Num AspectRatio : Type}.
Variable ratio_bool : AspectRatio → bool.

(** [create_images.constants], as far as [validate.py] reads it. *)
Record Constants := {
  POLAROID_PATH : string;
  IMAGE_PATHS : string;
  EQUAL_BORDERS : string;
  DISABLE_BORDERS : string;
  XS_BORDERS : string;
  SM_BORDERS : string;
  MD_BORDERS : string;
  LG_BORDERS : string;
  XL_BORDERS : string;
  RATIO_3_2 : string;
  RATIO_5_4 : string;
  RATIO_16_9 : string;
  RATIO_1_1 : string;
  INSTA_OPTIMISED : string;
  EDGE_SIZE : string;
  ASPECT_RATIO : string;
  EDGE_MAP : gmap string Num;
  ASPECT_RATIO_MAP : gmap string AspectRatio
}.

Variable c : Constants.

(** Values of the [input_args] dict built by [parse_args]. *)
Inductive InputVal :=
| IEdge (x : Num)
| IRatio (r : option AspectRatio)
| IArg (v : ArgVal).

(** *** argparse *)

(** The [dest]s in the order the actions are added, which is the
    order of [vars(parser.parse_args())]. *)
Definition namespace (paths : list string) (s : Switches) : Args :=
  [ (IMAGE_PATHS c, AStrs paths);
    (EQUAL_BORDERS c, ABool (sw_e s));
    (DISABLE_BORDERS c, ABool (sw_nb s));
    (XS_BORDERS c, ABool (sw_xs s));
    (SM_BORDERS c, ABool (sw_sm s));
    (MD_BORDERS c, ABool (sw_md s));
    (LG_BORDERS c, ABool (sw_lg s));
    (XL_BORDERS c, ABool (sw_xl s));
    (RATIO_3_2 c, ABool (sw_3_2 s));
    (RATIO_5_4 c, ABool (sw_5_4 s));
    (RATIO_16_9 c, ABool (sw_16_9 s));
    (INSTA_OPTIMISED c, ABool (sw_ig s)) ].

(** [nargs="+" if default_path == "" else "*"] *)
Definition image_paths_nargs (default_path : string) : Nargs :=
  if decide (default_path = ""%string) then OneOrMore else ZeroOrMore.

(** What argparse stores for a positional: with no string on the
    command line, ["+"] is an error and ["*"] yields the default. *)
Definition positional_value (nargs : Nargs) (default : list string)
    (given : list string) : Outcome (list string) :=
  match given, nargs with
  | [], OneOrMore => ParserError ARGUMENTS_REQUIRED
  | [], ZeroOrMore => Return default
  | _ :: _, _ => Return given
  end.

(** [vars(parser.parse_args())] for the parser built in [parse_args], on
    a command line in the sense above: the only complaint left to
    argparse is the missing positional. *)
Definition parser_parse_args (default_path : string) (cl : CommandLine)
    : Outcome Args :=
  paths ← positional_value (image_paths_nargs default_path) [default_path]
            (cl_paths cl);
  mret (namespace paths (cl_switches cl)).

(** *** sanitize_input_args *)

(** First [if] of the loop body. *)
Definition scan_edge (args : Args) (key : string) (edge_size : option Num)
    : Outcome (option Num) :=
  if contains (EDGE_MAP c) key then
    v ← getitem args key;
    if truthy v then
      match edge_size with
      | None => x ← map_getitem (EDGE_MAP c) key; mret (Some x)
      | Some _ => ParserError TOO_MANY_SIZE_FLAGS
      end
    else mret edge_size
  else mret edge_size.

(** Second [if] of the loop body. *)
Definition scan_ratio (args : Args) (even_borders : bool) (key : string)
    (aspect_ratio : option AspectRatio) : Outcome (option AspectRatio) :=
  if contains (ASPECT_RATIO_MAP c) key then
    v ← getitem args key;
    if truthy v then
      if even_borders then ParserError EQUAL_BORDERS_WITH_ASPECT_RATIO
      else
        match aspect_ratio with
        | None => r ← map_getitem (ASPECT_RATIO_MAP c) key; mret (Some r)
        | Some _ => ParserError TOO_MANY_ASPECT_RATIO_FLAGS
        end
    else mret aspect_ratio
  else mret aspect_ratio.

(** [for key in args: ...], on the pair [(edge_size, aspect_ratio)]. *)
Fixpoint scan (args : Args) (even_borders : bool) (keys : list string)
    (st : option Num * option AspectRatio)
    : Outcome (option Num * option AspectRatio) :=
  match keys with
  | [] => mret st
  | key :: rest =>
      edge_size ← scan_edge args key st.1;
      aspect_ratio ← scan_ratio args even_borders key st.2;
      scan args even_borders rest (edge_size, aspect_ratio)
  end.

(** [not aspect_ratio] *)
Definition not_ratio (aspect_ratio : option AspectRatio) : bool :=
  match aspect_ratio with
  | None => true
  | Some r => negb (ratio_bool r)
  end.

(** [sanitize_input_args(parser, args)].  The [parser] argument only
    serves [parser.error], which is the [ParserError] outcome here. *)
Definition sanitize_input_args (args : Args)
    : Outcome (option Num * option AspectRatio) :=
  eq ← getitem args (EQUAL_BORDERS c);
  let even_borders := if truthy eq then true else false in
  '(edge_size, aspect_ratio) ← scan args even_borders args.*1 (None, None);
  if not_ratio aspect_ratio && negb even_borders then
    r ← map_getitem (ASPECT_RATIO_MAP c) (RATIO_1_1 c);
    mret (edge_size, Some r)
  else mret (edge_size, aspect_ratio).

(** *** parse_args *)

(** [parse_args()], as a function of what it reads: [os.environ] and
    the command line.  It returns [args[IMAGE_PATHS]] and the
    [input_args] dict. *)
Definition parse_args (environ : gmap string string) (cl : CommandLine)
    : Outcome (ArgVal * gmap string InputVal) :=
  let default_path := default ""%string (environ !! POLAROID_PATH c) in
  args ← parser_parse_args default_path cl;
  '(edge_size, aspect_ratio) ← sanitize_input_args args;
  edge ← match edge_size with
         | Some x => mret x
         | None => map_getitem (EDGE_MAP c) (MD_BORDERS c)
         end;
  insta ← getitem args (INSTA_OPTIMISED c);
  let input_args : gmap string InputVal :=
    <[INSTA_OPTIMISED c := IArg insta]>
      (<[ASPECT_RATIO c := IRatio aspect_ratio]>
         (<[EDGE_SIZE c := IEdge edge]> ∅)) in
  paths ← getitem args (IMAGE_PATHS c);
  mret (paths, input_args).

End Validate.

(** ** validate_paths *)

Section Paths.

(** [pathlib.Path] objects, the constructor [Path(path)], and the two
    file-system tests.  The file system is taken to stay as it is for
    the duration of one call. *)
Context {PathT : Type}.
Variable Path : string → PathT.
Variables is_file is_dir : PathT → FsAnswer.

(** [not check_path.is_file() and not check_path.is_dir()], with the
    file-system queries it makes ([and] does not evaluate its right
    operand when the left one is false).  A test that raises ends the
    evaluation. *)
Definition missing (check_path : PathT) : FsAnswer * list (Query PathT) :=
  match is_file check_path with
  | Raises e => (Raises e, [IsFile check_path])
  | Answer true => (Answer false, [IsFile check_path])
  | Answer false =>
      match is_dir check_path with
      | Raises e => (Raises e, [IsFile check_path; IsDir check_path])
      | Answer d => (Answer (negb d), [IsFile check_path; IsDir check_path])
      end
  end.

(** The loop of [validate_paths]; [log] accumulates the queries made.
    An [OSError] raised by a test is not caught and ends the call. *)
Fixpoint validate_loop (img_paths : list string) (valid_paths : list PathT)
    (log : list (Query PathT)) : Outcome (list PathT) * list (Query PathT) :=
  match img_paths with
  | [] => (Return valid_paths, log)
  | path :: rest =>
      let check_path := Path path in
      let '(bad, queries) := missing check_path in
      match bad with
      | Raises e => (OSError e, log ++ queries)
      | Answer true => (SysExit INVALID_PATHS_PROVIDED, log ++ queries)
      | Answer false =>
          validate_loop rest (valid_paths ++ [check_path]) (log ++ queries)
      end
  end.

Definition validate_paths (img_paths : list string)
    : Outcome (list PathT) * list (Query PathT) :=
  validate_loop img_paths [] [].

(** A path string that names an existing file or directory: one of the
    two tests answers [True], as far as the code gets to ask. *)
Definition exists_on_disk (path : string) : bool :=
  match is_file (Path path) with
  | Answer true => true
  | Answer false =>
      match is_dir (Path path) with
      | Answer true => true
      | Answer false | Raises _ => false
      end
  | Raises _ => false
  end.

(** A path string for which both tests answer [False]. *)
Definition absent (path : string) : bool :=
  match is_file (Path path), is_dir (Path path) with
  | Answer false, Answer false => true
  | _, _ => false
  end.

(** The [OSError] that the test of a path string raises, if any. *)
Definition raised (path : string) : option Z :=
  match (missing (Path path)).1 with
  | Raises e => Some e
  | Answer _ => None
  end.

(** The queries made for a list of strings that are all looked at. *)
Definition queries_of (paths : list string) : list (Query PathT) :=
  concat ((λ path, (missing (Path path)).2) <$> paths).

End Paths.

(** ** What the code needs of the constants module *)

Section Wellformed.

Context {Num AspectRatio : Type}.
Variable c : @Constants Num AspectRatio.

Definition size_dests : list string :=
  [DISABLE_BORDERS c; XS_BORDERS c; SM_BORDERS c; MD_BORDERS c;
   LG_BORDERS c; XL_BORDERS c].

Definition ratio_dests : list string :=
  [RATIO_3_2 c; RATIO_5_4 c; RATIO_16_9 c].

(** Every [dest] registered by [parse_args], in registration order. *)
Definition dests : list string :=
  IMAGE_PATHS c :: EQUAL_BORDERS c :: size_dests ++ ratio_dests ++
  [INSTA_OPTIMISED c].

(** Modelled from the spec: [create_images/constants.py] is missing.  The
    spec's data model has six edge-size flags (none/xs/sm/md/lg/xl)
    mapping to numeric values, three aspect-ratio flags mapping to ratio
    objects next to the 1:1 default, and separate names for every flag
    and for the three entries of the input-args mapping. *)
Record constants_wf : Prop := {
  wf_names : NoDup (RATIO_1_1 c :: dests);
  wf_edge_map : dom (EDGE_MAP c) = list_to_set size_dests;
  wf_ratio_map :
    dom (ASPECT_RATIO_MAP c) = list_to_set (RATIO_1_1 c :: ratio_dests);
  wf_input_keys : NoDup [EDGE_SIZE c; ASPECT_RATIO c; INSTA_OPTIMISED c]
}.

End Wellformed.

(** ** Summary of the scan over a namespace *)

Section Summary.

Context {Num AspectRatio : Type}.
Variable ratio_bool : AspectRatio → bool.
Variable c : @Constants Num AspectRatio.

(** The values a table holds for those of the given switches that are
    set, in scan order. *)
Definition hits {V} (m : gmap string V) (flags : list (string * bool))
    : list V :=
  omap (λ kb : string * bool, if kb.2 then m !! kb.1 else None) flags.

Definition size_flags (s : Switches) : list (string * bool) :=
  [(DISABLE_BORDERS c, sw_nb s); (XS_BORDERS c, sw_xs s);
   (SM_BORDERS c, sw_sm s); (MD_BORDERS c, sw_md s);
   (LG_BORDERS c, sw_lg s); (XL_BORDERS c, sw_xl s)].

Definition ratio_flags (s : Switches) : list (string * bool) :=
  [(RATIO_3_2 c, sw_3_2 s); (RATIO_5_4 c, sw_5_4 s);
   (RATIO_16_9 c, sw_16_9 s)].

(** What [sanitize_input_args] amounts to on the namespace of a command
    line (lemma [sanitize_namespace]); used in proofs only. *)
Definition summary (s : Switches) : Outcome (option Num * option AspectRatio) :=
  edge_size ← match hits (EDGE_MAP c) (size_flags s) with
              | [] => Return None
              | [x] => Return (Some x)
              | _ :: _ :: _ => ParserError TOO_MANY_SIZE_FLAGS
              end;
  aspect_ratio ← match hits (ASPECT_RATIO_MAP c) (ratio_flags s) with
                 | [] => Return None
                 | r :: more =>
                     if sw_e s then ParserError EQUAL_BORDERS_WITH_ASPECT_RATIO
                     else match more with
                          | [] => Return (Some r)
                          | _ :: _ => ParserError TOO_MANY_ASPECT_RATIO_FLAGS
                          end
                 end;
  if not_ratio ratio_bool aspect_ratio && negb (sw_e s) then
    r ← map_getitem (ASPECT_RATIO_MAP c) (RATIO_1_1 c);
    mret (edge_size, Some r)
  else mret (edge_size, aspect_ratio).

End Summary.

(** ** A concrete constants table *)

(** Modelled from the spec: [create_images/constants.py] is missing.  The
    names follow the option strings of the spec's interface section; the
    widths and ratios are sample values, used only to instantiate the
    general statements. *)
Definition sample : @Constants Z (Z * Z) := {|
  POLAROID_PATH := "POLAROID_PATH";
  IMAGE_PATHS := "image_paths";
  EQUAL_BORDERS := "equal_borders";
  DISABLE_BORDERS := "no_border";
  XS_BORDERS := "xs";
  SM_BORDERS := "sm";
  MD_BORDERS := "md";
  LG_BORDERS := "lg";
  XL_BORDERS := "xl";
  RATIO_3_2 := "3_2";
  RATIO_5_4 := "5_4";
  RATIO_16_9 := "16_9";
  RATIO_1_1 := "1_1";
  INSTA_OPTIMISED := "insta_optimised";
  EDGE_SIZE := "edge_size";
  ASPECT_RATIO := "aspect_ratio";
  EDGE_MAP :=
    list_to_map [("no_border", 0); ("xs", 2); ("sm", 4); ("md", 6);
                 ("lg", 8); ("xl", 10)]%Z;
  ASPECT_RATIO_MAP :=
    list_to_map [("1_1", (1, 1)); ("3_2", (3, 2)); ("5_4", (5, 4));
                 ("16_9", (16, 9))]%Z
|}.

Definition sample_truth (r : Z * Z) : bool := true.

(** The switches of a list of option strings, as the [store_true]
    actions registered by the four [add_*] functions set them: a switch
    is on when one of its option strings occurs. *)
Definition switches_of (opts : list string) : Switches :=
  let on (names : list string) : bool :=
    bool_decide (Exists (λ name, name ∈ opts) names) in
  {| sw_e := on ["--e"; "--eq"]%string;
     sw_nb := on ["--nb"; "--no-border"]%string;
     sw_xs := on ["--xs"; "--extra-small"]%string;
     sw_sm := on ["--sm"; "--small"]%string;
     sw_md := on ["--md"; "--medium"]%string;
     sw_lg := on ["--lg"; "--large"]%string;
     sw_xl := on ["--xl"; "--extra-large"]%string;
     sw_3_2 := on ["--3-2"; "--2-3"]%string;
     sw_5_4 := on ["--5-4"; "--4-5"]%string;
     sw_16_9 := on ["--16-9"; "--9-16"]%string;
     sw_ig := on ["--ig"; "--insta"; "--instagram"]%string |}.

(** An environment with POLAROID_PATH set, and a small disk: one file
    and one directory.  On it [stat] fails with ENAMETOOLONG (errno 36)
    for the name of 256 letters. *)
Definition sample_environ : gmap string string :=
  {[ "POLAROID_PATH"%string := "/tmp/photos"%string ]}.

Definition disk_path (path : string) : string := path.

Fixpoint letters (n : nat) : string :=
  match n with
  | 0 => EmptyString
  | S n => String (Ascii.ascii_of_nat 97) (letters n)
  end.

Definition long_name : string := letters 256.

Definition disk_is_file (p : string) : FsAnswer :=
  if bool_decide (p = long_name) then Raises 36
  else Answer (bool_decide (p = "./exists.jpg"%string)).

Definition disk_is_dir (p : string) : FsAnswer :=
  if bool_decide (p = long_name) then Raises 36
  else Answer (bool_decide (p = "/tmp/photos"%string)).

(** ** Any dict handed to sanitize_input_args *)

(** What a table holds for a key of the dict, when the dict's value
    under that key is truthy. *)
Definition flag_value {V} (m : gmap string V) (args : Args) (key : string)
    : option V :=
  match args_get args key with
  | Some v => if truthy v then m !! key else None
  | None => None
  end.

(** The table values of the truthy keys of the dict, in iteration order. *)
Definition flagged {V} (m : gmap string V) (args : Args) (keys : list string)
    : list V :=
  omap (flag_value m args) keys.

(** ** Option strings *)

(** The option strings of the actions added by [add_edge_size_flags] and
    by [add_aspect_ratio_flags], one list per action. *)
Definition size_options : list (list string) :=
  [ ["--nb"; "--no-border"]; ["--xs"; "--extra-small"]; ["--sm"; "--small"];
    ["--md"; "--medium"]; ["--lg"; "--large"]; ["--xl"; "--extra-large"]
  ]%string.

Definition ratio_options : list (list string) :=
  [ ["--3-2"; "--2-3"]; ["--5-4"; "--4-5"]; ["--16-9"; "--9-16"] ]%string.

(** ** Sample runs *)

Ltac sample_ok := split; compute_done.

Example sample_xs_alone :
  sanitize_input_args sample_truth sample
    (namespace sample ["a.jpg"%string] (switches_of ["--xs"%string]))
  = Return (Some 2%Z, Some (1, 1)%Z).
Proof. vm_compute. reflexivity. Qed.

Example sample_xs_md :
  sanitize_input_args sample_truth sample
    (namespace sample ["a.jpg"%string]
       (switches_of ["--xs"; "--md"]%string))
  = ParserError TOO_MANY_SIZE_FLAGS.
Proof. vm_compute. reflexivity. Qed.

Example sample_size_error_first :
  sanitize_input_args sample_truth sample
    (namespace sample ["a.jpg"%string]
       (switches_of ["--3-2"; "--eq"; "--xl"; "--sm"]%string))
  = ParserError TOO_MANY_SIZE_FLAGS.
Proof. vm_compute. reflexivity. Qed.

Example sample_default_path :
  parse_args sample_truth sample sample_environ
    {| cl_paths := []; cl_switches := switches_of ["--ig"%string] |}
  = Return (AStrs ["/tmp/photos"%string],
            {[ "edge_size"%string := IEdge 6%Z;
               "aspect_ratio"%string := IRatio (Some (1, 1)%Z);
               "insta_optimised"%string := IArg (ABool true) ]}).
Proof. vm_compute. reflexivity. Qed.

Example sample_missing_path :
  validate_paths disk_path disk_is_file disk_is_dir
    ["./exists.jpg"; "./missing.jpg"]%string
  = (SysExit INVALID_PATHS_PROVIDED,
     [IsFile "./exists.jpg"; IsFile "./missing.jpg"; IsDir "./missing.jpg"]%string).
Proof. vm_compute. reflexivity. Qed.

(** ** Lookups in a namespace and in the constant tables *)

Lemma args_get_elem (args : Args) k v :
  NoDup args.*1 → (k, v) ∈ args → args_get args k = Some v.
Proof.
  induction args as [|[k' v'] args IH]; intros Hnd Hin.
  - by apply elem_of_nil in Hin.
  - apply NoDup_cons in Hnd as [Hk' Hnd]. simpl.
    apply elem_of_cons in Hin as [Heq|Hin].
    + injection Heq as -> ->. by rewrite decide_True.
    + rewrite decide_False; [by apply IH|].
      intros ->. apply Hk'. by apply (list_elem_of_fmap_2 fst _ (k, v)).
Qed.

Lemma contains_true {V} (m : gmap string V) k :
  contains m k = true ↔ k ∈ dom m.
Proof. unfold contains. by rewrite bool_decide_eq_true, elem_of_dom. Qed.

Lemma contains_false {V} (m : gmap string V) k :
  contains m k = false ↔ k ∉ dom m.
Proof. unfold contains. by rewrite bool_decide_eq_false, elem_of_dom. Qed.

Lemma map_getitem_dom {V} (m : gmap string V) k :
  k ∈ dom m → ∃ v, m !! k = Some v ∧ map_getitem m k = Return v.
Proof.
  intros [v Hv]%elem_of_dom. exists v. unfold map_getitem. by rewrite Hv.
Qed.

Lemma hits_nil {V} (m : gmap string V) : hits m [] = [].
Proof. reflexivity. Qed.

Lemma hits_cons {V} (m : gmap string V) k (b : bool) flags :
  hits m ((k, b) :: flags) =
  if b then match m !! k with
            | Some v => v :: hits m flags
            | None => hits m flags
            end
  else hits m flags.
Proof. by destruct b. Qed.

(** Turns a [NoDup] over an explicit list into pairwise inequalities. *)
Ltac nodup_names H :=
  repeat (apply NoDup_cons in H as [? H]); clear H;
  repeat match goal with
         | N : _ ∉ _ :: _ |- _ => apply not_elem_of_cons in N as [? N]
         | N : _ ∉ [] |- _ => clear N
         end.

Ltac not_among :=
  repeat (apply not_elem_of_cons; split; [done|]); apply not_elem_of_nil.

Ltac among :=
  repeat first [apply list_elem_of_here | apply list_elem_of_further].

Section Namespace.

Context {Num AspectRatio : Type}.
Variable ratio_bool : AspectRatio → bool.
Variable c : @Constants Num AspectRatio.
Hypothesis Hwf : constants_wf c.

Lemma namespace_keys paths s : (namespace c paths s).*1 = dests c.
Proof. reflexivity. Qed.

Lemma getitem_namespace paths s k v :
  (k, v) ∈ namespace c paths s → getitem (namespace c paths s) k = Return v.
Proof.
  intros Hin. unfold getitem. rewrite (args_get_elem _ k v); [done| |done].
  rewrite namespace_keys. by eapply NoDup_cons_1_2, wf_names.
Qed.

Lemma edge_map_members : Forall (λ k, k ∈ dom (EDGE_MAP c)) (size_dests c).
Proof.
  rewrite (wf_edge_map _ Hwf). apply Forall_forall. intros k Hk.
  by apply elem_of_list_to_set.
Qed.

Lemma edge_map_others :
  Forall (λ k, k ∉ dom (EDGE_MAP c))
    (IMAGE_PATHS c :: EQUAL_BORDERS c :: ratio_dests c ++ [INSTA_OPTIMISED c]).
Proof.
  pose proof (wf_names _ Hwf) as Hnd.
  unfold dests, size_dests, ratio_dests in Hnd. simpl in Hnd. nodup_names Hnd.
  rewrite (wf_edge_map _ Hwf).
  repeat constructor; rewrite elem_of_list_to_set; unfold size_dests; not_among.
Qed.

Lemma ratio_map_members :
  Forall (λ k, k ∈ dom (ASPECT_RATIO_MAP c)) (RATIO_1_1 c :: ratio_dests c).
Proof.
  rewrite (wf_ratio_map _ Hwf). apply Forall_forall. intros k Hk.
  by apply elem_of_list_to_set.
Qed.

Lemma ratio_map_others :
  Forall (λ k, k ∉ dom (ASPECT_RATIO_MAP c))
    (IMAGE_PATHS c :: EQUAL_BORDERS c :: size_dests c ++ [INSTA_OPTIMISED c]).
Proof.
  pose proof (wf_names _ Hwf) as Hnd.
  unfold dests, size_dests, ratio_dests in Hnd. simpl in Hnd. nodup_names Hnd.
  rewrite (wf_ratio_map _ Hwf).
  repeat constructor; rewrite elem_of_list_to_set; unfold ratio_dests; not_among.
Qed.

(** Brings the table facts into the context, one hypothesis per name. *)
Ltac table_facts :=
  let E := fresh in let E' := fresh in let R := fresh in let R' := fresh in
  pose proof edge_map_members as E; pose proof edge_map_others as E';
  pose proof ratio_map_members as R; pose proof ratio_map_others as R';
  unfold size_dests, ratio_dests in E, E', R, R'; simpl in E', R';
  repeat match goal with
         | F : Forall _ (_ :: _) |- _ => apply Forall_cons in F as [? F]
         | F : Forall _ [] |- _ => clear F
         end;
  repeat match goal with
         | M : ?k ∈ dom ?m |- _ =>
             let v := fresh "v" in
             pose proof (proj2 (contains_true m k) M);
             apply map_getitem_dom in M as (v & ? & ?)
         | M : ?k ∉ dom ?m |- _ => apply contains_false in M
         end.

Lemma sanitize_namespace paths s :
  sanitize_input_args ratio_bool c (namespace c paths s) = summary ratio_bool c s.
Proof.
  table_facts.
  assert (G : Forall (λ kv, getitem (namespace c paths s) kv.1 = Return kv.2)
                (namespace c paths s)).
  { apply Forall_forall. intros [key val] Hin. by apply getitem_namespace. }
  unfold sanitize_input_args. rewrite namespace_keys.
  unfold namespace in G at 2.
  repeat (apply Forall_cons in G as [? G]); clear G.
  simpl fst in *; simpl snd in *.
  set (args := namespace c paths s) in *.
  unfold summary, size_flags, ratio_flags, dests, size_dests, ratio_dests.
  rewrite !hits_cons, !hits_nil.
  cbn [scan app]. unfold scan_edge, scan_ratio.
  repeat match goal with E : _ = _ |- _ => rewrite E; clear E end.
  clear. destruct s as [e nb xs sm md lg xl r32 r54 r169 ig]. cbn.
  destruct nb, xs, sm, md, lg, xl; cbn; try reflexivity;
    destruct e, r32, r54, r169; reflexivity.
Qed.

Lemma size_hits_length s :
  length (hits (EDGE_MAP c) (size_flags c s)) = size_count s.
Proof.
  table_facts. unfold size_flags. rewrite !hits_cons, !hits_nil.
  repeat match goal with E : _ !! _ = _ |- _ => rewrite E; clear E end.
  clear. destruct s as [e nb xs sm md lg xl r32 r54 r169 ig]. cbn.
  by destruct nb, xs, sm, md, lg, xl.
Qed.

Lemma ratio_hits_length s :
  length (hits (ASPECT_RATIO_MAP c) (ratio_flags c s)) = ratio_count s.
Proof.
  table_facts. unfold ratio_flags. rewrite !hits_cons, !hits_nil.
  repeat match goal with E : _ !! _ = _ |- _ => rewrite E; clear E end.
  clear. destruct s as [e nb xs sm md lg xl r32 r54 r169 ig]. cbn.
  by destruct r32, r54, r169.
Qed.

Lemma ratio_1_1_getitem :
  ∃ r, ASPECT_RATIO_MAP c !! RATIO_1_1 c = Some r
       ∧ map_getitem (ASPECT_RATIO_MAP c) (RATIO_1_1 c) = Return r.
Proof.
  apply map_getitem_dom. pose proof ratio_map_members as M.
  by apply Forall_cons in M as [M _].
Qed.

Lemma md_getitem :
  ∃ x, EDGE_MAP c !! MD_BORDERS c = Some x
       ∧ map_getitem (EDGE_MAP c) (MD_BORDERS c) = Return x.
Proof.
  apply map_getitem_dom. pose proof edge_map_members as M.
  unfold size_dests in M. rewrite !Forall_cons in M. tauto.
Qed.

(** Case analysis on the two hit lists of [summary], with their lengths
    tied to the switch counts. *)
Ltac summary_cases s :=
  rewrite ?sanitize_namespace; unfold summary;
  let Hs := fresh "Hs" in let Hr := fresh "Hr" in
  pose proof (size_hits_length s) as Hs;
  pose proof (ratio_hits_length s) as Hr;
  let r11 := fresh "r11" in
  destruct ratio_1_1_getitem as (r11 & ? & ->);
  destruct (hits (EDGE_MAP c) (size_flags c s)) as [|? [|? ?]];
  destruct (hits (ASPECT_RATIO_MAP c) (ratio_flags c s)) as [|? [|? ?]];
  destruct (sw_e s); cbn [length] in Hs, Hr; cbn -[size_count ratio_count];
  repeat match goal with |- context [ratio_bool ?r] => destruct (ratio_bool r) end;
  cbn -[size_count ratio_count]; unfold mret, Outcome_ret.

Lemma sanitize_returns paths s :
  size_count s ≤ 1 → ratio_count s ≤ 1 → (sw_e s = true → ratio_count s = 0) →
  returns (sanitize_input_args ratio_bool c (namespace c paths s)).
Proof.
  intros Hn Hm He. unfold returns.
  summary_cases s; try lia; try (specialize (He eq_refl); lia); eauto.
Qed.

Lemma sanitize_no_size paths s edge_size aspect_ratio :
  size_count s = 0 →
  sanitize_input_args ratio_bool c (namespace c paths s)
  = Return (edge_size, aspect_ratio) →
  edge_size = None.
Proof.
  intros Hn. summary_cases s; intros Hret; (lia || congruence).
Qed.

Lemma no_border_hit s :
  sw_nb s = true → size_count s = 1 →
  ∃ x, EDGE_MAP c !! DISABLE_BORDERS c = Some x
       ∧ hits (EDGE_MAP c) (size_flags c s) = [x].
Proof.
  table_facts. unfold size_flags. rewrite !hits_cons, !hits_nil.
  repeat match goal with E : EDGE_MAP c !! _ = _ |- _ => rewrite E; clear E end.
  clear. destruct s as [e nb xs sm md lg xl r32 r54 r169 ig]. cbn.
  intros -> Hone. destruct xs, sm, md, lg, xl; cbn in Hone; try lia; eauto.
Qed.

Lemma parse_args_unfold environ cl :
  let default_path := default ""%string (environ !! POLAROID_PATH c) in
  let s := cl_switches cl in
  ∃ x_md, EDGE_MAP c !! MD_BORDERS c = Some x_md ∧
    parse_args ratio_bool c environ cl =
      paths ← positional_value (image_paths_nargs default_path) [default_path]
                (cl_paths cl);
      '(edge_size, aspect_ratio) ←
        sanitize_input_args ratio_bool c (namespace c paths s);
      mret (AStrs paths,
            <[INSTA_OPTIMISED c := IArg (ABool (sw_ig s))]>
              (<[ASPECT_RATIO c := IRatio aspect_ratio]>
                 (<[EDGE_SIZE c := IEdge (default x_md edge_size)]> ∅))).
Proof.
  intros default_path s. destruct md_getitem as (x_md & Hmd & Hget).
  exists x_md. split; [done|].
  unfold parse_args, parser_parse_args. fold default_path. fold s.
  destruct (positional_value _ _ _) as [paths| | | |]; try reflexivity.
  cbn. destruct (sanitize_input_args _ _ _) as [[edge_size aspect_ratio]| | | |];
    try reflexivity.
  cbn.
  rewrite (getitem_namespace _ _ (INSTA_OPTIMISED c) (ABool (sw_ig s)))
    by (unfold namespace; among).
  rewrite (getitem_namespace _ _ (IMAGE_PATHS c) (AStrs paths))
    by (unfold namespace; among).
  destruct edge_size; cbn; [done|]. by rewrite Hget.
Qed.

(** C1 (as amended): on the namespace of any command line, zero or one
    edge-size switch never leads to the "too many size flags" parser
    error, and sanitization then returns whenever at most one
    aspect-ratio switch is set and none together with equal borders;
    two or more edge-size switches always end in exactly that error. *)
Theorem C1_size_flags paths s :
  (size_count s ≤ 1 →
     sanitize_input_args ratio_bool c (namespace c paths s)
     ≠ ParserError TOO_MANY_SIZE_FLAGS
     ∧ (ratio_count s ≤ 1 → (sw_e s = true → ratio_count s = 0) →
        returns (sanitize_input_args ratio_bool c (namespace c paths s))))
  ∧ (2 ≤ size_count s →
     sanitize_input_args ratio_bool c (namespace c paths s)
     = ParserError TOO_MANY_SIZE_FLAGS).
Proof.
  split_and!.
  - intros Hn. split; [|by apply sanitize_returns].
    summary_cases s; (done || lia).
  - intros Hn. summary_cases s; (done || lia).
Qed.

(** C2 (as amended): with at most one edge-size switch set, zero or one
    aspect-ratio switch without equal-borders makes sanitization return;
    two or more aspect-ratio switches without equal-borders end in the
    "too many aspect-ratio flags" parser error; at least one aspect-ratio
    switch together with equal-borders ends in the incompatibility
    parser error. *)
Theorem C2_ratio_flags paths s :
  size_count s ≤ 1 →
  (ratio_count s ≤ 1 → sw_e s = false →
     returns (sanitize_input_args ratio_bool c (namespace c paths s)))
  ∧ (2 ≤ ratio_count s → sw_e s = false →
     sanitize_input_args ratio_bool c (namespace c paths s)
     = ParserError TOO_MANY_ASPECT_RATIO_FLAGS)
  ∧ (1 ≤ ratio_count s → sw_e s = true →
     sanitize_input_args ratio_bool c (namespace c paths s)
     = ParserError EQUAL_BORDERS_WITH_ASPECT_RATIO).
Proof.
  intros Hn. split_and!.
  - intros Hm He. apply sanitize_returns; [done..|]. by rewrite He.
  - intros Hm. summary_cases s; intros He; (done || lia).
  - intros Hm. summary_cases s; intros He; (done || lia).
Qed.

(** C3 (as amended): with at most one edge-size switch set, no
    aspect-ratio switch and no equal-borders, sanitization returns the
    1:1 object of the aspect-ratio map as its aspect ratio. *)
Theorem C3_default_ratio paths s :
  size_count s ≤ 1 → ratio_count s = 0 → sw_e s = false →
  ∃ edge_size r,
    ASPECT_RATIO_MAP c !! RATIO_1_1 c = Some r
    ∧ sanitize_input_args ratio_bool c (namespace c paths s)
      = Return (edge_size, Some r).
Proof.
  intros Hn Hm. summary_cases s; intros He; try (done || lia); eauto.
Qed.

(** C5 (as amended): with at most one edge-size switch set, equal-borders
    set and no aspect-ratio switch, sanitization returns [None] as its
    aspect ratio; and whenever sanitization returns [None] as aspect
    ratio, equal-borders is set and no aspect-ratio switch is. *)
Theorem C5_equal_borders paths s :
  (size_count s ≤ 1 → sw_e s = true → ratio_count s = 0 →
     ∃ edge_size,
       sanitize_input_args ratio_bool c (namespace c paths s)
       = Return (edge_size, None))
  ∧ (∀ edge_size,
       sanitize_input_args ratio_bool c (namespace c paths s)
       = Return (edge_size, None) →
       sw_e s = true ∧ ratio_count s = 0).
Proof.
  split.
  - intros Hn. summary_cases s; intros He Hm; try (done || lia); eauto.
  - intros edge_size. summary_cases s; intros Hret; try done.
Qed.

(** C9: the no-border switch goes through the edge-size map like the
    other five.  When it is the only edge-size switch (and the
    aspect-ratio switches raise no error, as when no other switch is
    given at all), sanitization returns the map's value under the
    no-border name; together with any other edge-size switch it ends in
    the "too many size flags" parser error. *)
Theorem C9_no_border paths s :
  sw_nb s = true →
  (size_count s = 1 → ratio_count s ≤ 1 →
   (sw_e s = true → ratio_count s = 0) →
     ∃ x aspect_ratio,
       EDGE_MAP c !! DISABLE_BORDERS c = Some x
       ∧ sanitize_input_args ratio_bool c (namespace c paths s)
         = Return (Some x, aspect_ratio))
  ∧ (2 ≤ size_count s →
     sanitize_input_args ratio_bool c (namespace c paths s)
     = ParserError TOO_MANY_SIZE_FLAGS).
Proof.
  intros Hnb. split.
  - intros Hone Hm He.
    destruct (no_border_hit s Hnb Hone) as (x & Hx & Hhits). exists x.
    rewrite sanitize_namespace. unfold summary. rewrite Hhits.
    pose proof (ratio_hits_length s) as Hr.
    destruct ratio_1_1_getitem as (r11 & _ & ->).
    destruct (hits (ASPECT_RATIO_MAP c) _) as [|r [|r' l]];
      destruct (sw_e s); cbn [length] in Hr; cbn; try lia;
      try (specialize (He eq_refl); lia);
      try destruct (ratio_bool r); cbn; eauto.
  - intros Hn. summary_cases s; (done || lia).
Qed.

(** C4: with no edge-size switch on the command line, the edge-size
    entry of the input-args mapping that [parse_args] returns is the
    edge-size map's value for medium; and [parse_args] does return one
    whenever argparse accepts the positionals and the aspect-ratio
    switches raise no error. *)
Theorem C4_medium_default environ cl :
  size_count (cl_switches cl) = 0 →
  ∃ x, EDGE_MAP c !! MD_BORDERS c = Some x
    ∧ (∀ paths input_args,
         parse_args ratio_bool c environ cl = Return (paths, input_args) →
         input_args !! EDGE_SIZE c = Some (IEdge x))
    ∧ (returns (parser_parse_args c
                  (default ""%string (environ !! POLAROID_PATH c)) cl) →
       ratio_count (cl_switches cl) ≤ 1 →
       (sw_e (cl_switches cl) = true → ratio_count (cl_switches cl) = 0) →
       returns (parse_args ratio_bool c environ cl)).
Proof.
  intros Hn. destruct (parse_args_unfold environ cl) as (x & Hx & ->).
  exists x. split; [done|]. cbn zeta.
  pose proof (wf_input_keys _ Hwf) as Hk. nodup_names Hk.
  unfold parser_parse_args, returns.
  destruct (positional_value _ _ _) as [ps| | | |]; cbn;
    try (split; [done|by intros [? ?]]).
  pose proof (sanitize_no_size ps (cl_switches cl)) as Hnone.
  pose proof (sanitize_returns ps (cl_switches cl)) as Hret.
  destruct (sanitize_input_args _ _ _) as [[edge_size aspect_ratio]| | | |]; cbn.
  - rewrite (Hnone _ _ Hn eq_refl). split; [|eauto].
    intros paths input_args [= <- <-].
    by rewrite lookup_insert_ne, lookup_insert_ne, lookup_insert_eq.
  - split; [done|]. intros _ Hm He. destruct Hret as [? ?]; [lia|done..].
  - split; [done|]. intros _ Hm He. destruct Hret as [? ?]; [lia|done..].
  - split; [done|]. intros _ Hm He. destruct Hret as [? ?]; [lia|done..].
  - split; [done|]. intros _ Hm He. destruct Hret as [? ?]; [lia|done..].
Qed.

(** C8: with POLAROID_PATH set to a non-empty string and no positional
    on the command line, the positional is optional and argparse stores
    the one-element list holding that string, which [parse_args] returns
    as its image paths; with POLAROID_PATH unset or empty the positional
    takes one or more values, and a command line without one ends in
    argparse's own error. *)
Theorem C8_default_path environ cl :
  (∀ p, environ !! POLAROID_PATH c = Some p → p ≠ ""%string →
        cl_paths cl = [] →
     image_paths_nargs p = ZeroOrMore
     ∧ parser_parse_args c p cl = Return (namespace c [p] (cl_switches cl))
     ∧ getitem (namespace c [p] (cl_switches cl)) (IMAGE_PATHS c)
       = Return (AStrs [p])
     ∧ (∀ paths input_args,
          parse_args ratio_bool c environ cl = Return (paths, input_args) →
          paths = AStrs [p])
     ∧ (returns (sanitize_input_args ratio_bool c
                   (namespace c [p] (cl_switches cl))) →
        returns (parse_args ratio_bool c environ cl)))
  ∧ (environ !! POLAROID_PATH c = None
     ∨ environ !! POLAROID_PATH c = Some ""%string →
     image_paths_nargs (default ""%string (environ !! POLAROID_PATH c))
     = OneOrMore
     ∧ (cl_paths cl = [] →
        parse_args ratio_bool c environ cl = ParserError ARGUMENTS_REQUIRED)
     ∧ (cl_paths cl ≠ [] →
        parser_parse_args c (default ""%string (environ !! POLAROID_PATH c)) cl
        = Return (namespace c (cl_paths cl) (cl_switches cl)))).
Proof.
  destruct (parse_args_unfold environ cl) as (x & _ & ->). cbn zeta. split.
  - intros p Hp Hne Hnil. rewrite Hp, Hnil. cbn [default].
    unfold parser_parse_args, image_paths_nargs. rewrite Hnil.
    repeat case_decide; [done..|]. cbn. split_and!; try done.
    + apply getitem_namespace. unfold namespace. among.
    + intros paths input_args.
      destruct (sanitize_input_args _ _ _) as [[edge_size ar]| | | |];
        cbn; unfold mret, Outcome_ret; congruence.
    + intros [[edge_size ar] ->]. cbn. by eexists.
  - intros Henv.
    assert (default ""%string (environ !! POLAROID_PATH c) = ""%string) as ->
      by (by destruct Henv as [-> | ->]).
    unfold parser_parse_args, image_paths_nargs.
    repeat case_decide; [|done..].
    split_and!; [done|by intros ->|].
    intros Hne. by destruct (cl_paths cl).
Qed.

(** C10: the Instagram switch is independent.  Setting or clearing it
    leaves the outcome of sanitization as it is, errors included, and
    hence the edge size and aspect ratio; the input-args mapping
    returned by [parse_args] holds the parsed boolean under the
    Instagram name; and [parse_args] returns whenever argparse accepts
    the positionals and sanitization returns. *)
Theorem C10_instagram paths s b environ cl :
  sanitize_input_args ratio_bool c (namespace c paths (with_ig s b))
  = sanitize_input_args ratio_bool c (namespace c paths s)
  ∧ (∀ ps input_args,
       parse_args ratio_bool c environ cl = Return (ps, input_args) →
       input_args !! INSTA_OPTIMISED c
       = Some (IArg (ABool (sw_ig (cl_switches cl)))))
  ∧ (∀ ps,
       positional_value
         (image_paths_nargs (default ""%string (environ !! POLAROID_PATH c)))
         [default ""%string (environ !! POLAROID_PATH c)] (cl_paths cl)
       = Return ps →
       returns (sanitize_input_args ratio_bool c
                  (namespace c ps (cl_switches cl))) →
       returns (parse_args ratio_bool c environ cl)).
Proof.
  split_and!.
  - by rewrite !sanitize_namespace.
  - destruct (parse_args_unfold environ cl) as (x & _ & ->). cbn zeta.
    intros ps input_args.
    destruct (positional_value _ _ _) as [ps'| | | |]; cbn; try done.
    destruct (sanitize_input_args _ _ _) as [[edge_size ar]| | | |];
      cbn; try done.
    unfold mret, Outcome_ret. intros [= <- <-]. by rewrite lookup_insert_eq.
  - destruct (parse_args_unfold environ cl) as (x & _ & ->). cbn zeta.
    intros ps -> [[edge_size ar] Hret]. cbn. rewrite Hret. cbn. by eexists.
Qed.

End Namespace.

Section PathFacts.

Context {PathT : Type}.
Variable Path : string → PathT.
Variables is_file is_dir : PathT → FsAnswer.

Lemma missing_exists path :
  exists_on_disk Path is_file is_dir path = true →
  (missing is_file is_dir (Path path)).1 = Answer false.
Proof.
  unfold missing, exists_on_disk.
  by destruct (is_file (Path path)) as [[]|], (is_dir (Path path)) as [[]|].
Qed.

Lemma missing_absent path :
  absent Path is_file is_dir path = true →
  (missing is_file is_dir (Path path)).1 = Answer true.
Proof.
  unfold missing, absent.
  by destruct (is_file (Path path)) as [[]|], (is_dir (Path path)) as [[]|].
Qed.

Lemma missing_raised path e :
  raised Path is_file is_dir path = Some e →
  (missing is_file is_dir (Path path)).1 = Raises e.
Proof.
  unfold raised. destruct (missing is_file is_dir (Path path)).1; congruence.
Qed.

(** A path that does not pass is absent or makes a test raise. *)
Lemma not_exists_cases path :
  exists_on_disk Path is_file is_dir path = false →
  absent Path is_file is_dir path = true
  ∨ ∃ e, raised Path is_file is_dir path = Some e.
Proof.
  unfold exists_on_disk, absent, raised, missing.
  destruct (is_file (Path path)) as [[]|], (is_dir (Path path)) as [[]|];
    cbn; eauto.
Qed.

Lemma queries_of_app pre rest :
  queries_of Path is_file is_dir (pre ++ rest)
  = queries_of Path is_file is_dir pre ++ queries_of Path is_file is_dir rest.
Proof. unfold queries_of. by rewrite fmap_app, concat_app. Qed.

Lemma queries_of_cons path rest :
  queries_of Path is_file is_dir (path :: rest)
  = (missing is_file is_dir (Path path)).2 ++ queries_of Path is_file is_dir rest.
Proof. reflexivity. Qed.

Lemma queries_of_snoc pre path :
  queries_of Path is_file is_dir (pre ++ [path])
  = queries_of Path is_file is_dir pre ++ (missing is_file is_dir (Path path)).2.
Proof.
  rewrite queries_of_app, queries_of_cons. unfold queries_of at 3. cbn.
  by rewrite app_nil_r.
Qed.

(** The loop walks over a prefix of existing paths, collecting them. *)
Lemma validate_loop_prefix pre rest valid_paths log :
  Forall (λ path, exists_on_disk Path is_file is_dir path = true) pre →
  validate_loop Path is_file is_dir (pre ++ rest) valid_paths log
  = validate_loop Path is_file is_dir rest (valid_paths ++ (Path <$> pre))
      (log ++ queries_of Path is_file is_dir pre).
Proof.
  intros Hpre. revert valid_paths log.
  induction Hpre as [|path pre Hpath _ IH]; intros valid_paths log.
  - cbn. by rewrite !app_nil_r.
  - cbn [app validate_loop].
    pose proof (missing_exists path Hpath) as Hm.
    destruct (missing is_file is_dir (Path path)) as [bad queries] eqn:Hq.
    cbn in Hm. subst bad. rewrite IH, queries_of_cons, Hq. cbn [fmap list_fmap snd].
    by rewrite <-!app_assoc.
Qed.

(** The loop at the first path that does not pass. *)
Lemma validate_paths_absent pre bad rest :
  Forall (λ path, exists_on_disk Path is_file is_dir path = true) pre →
  absent Path is_file is_dir bad = true →
  validate_paths Path is_file is_dir (pre ++ bad :: rest)
  = (SysExit INVALID_PATHS_PROVIDED,
     queries_of Path is_file is_dir (pre ++ [bad])).
Proof.
  intros Hpre Hbad%missing_absent. rewrite queries_of_snoc.
  unfold validate_paths. rewrite validate_loop_prefix by done.
  cbn [validate_loop app].
  destruct (missing is_file is_dir (Path bad)) as [answer queries].
  cbn in Hbad. by subst answer.
Qed.

Lemma validate_paths_raised pre bad rest e :
  Forall (λ path, exists_on_disk Path is_file is_dir path = true) pre →
  raised Path is_file is_dir bad = Some e →
  validate_paths Path is_file is_dir (pre ++ bad :: rest)
  = (OSError e, queries_of Path is_file is_dir (pre ++ [bad])).
Proof.
  intros Hpre Hbad%missing_raised. rewrite queries_of_snoc.
  unfold validate_paths. rewrite validate_loop_prefix by done.
  cbn [validate_loop app].
  destruct (missing is_file is_dir (Path bad)) as [answer queries].
  cbn in Hbad. by subst answer.
Qed.



(** C7: when every path is an existing file or an existing directory,
    [validate_paths] returns the path objects of the input strings, in
    the same order: a list of the same length whose i-th element is the
    path object of the i-th string. *)
Theorem C7_all_valid_paths img_paths :
  Forall (λ path, exists_on_disk Path is_file is_dir path = true) img_paths →
  ∃ valid_paths,
    (validate_paths Path is_file is_dir img_paths).1 = Return valid_paths
    ∧ valid_paths = Path <$> img_paths
    ∧ length valid_paths = length img_paths
    ∧ ∀ i path, img_paths !! i = Some path → valid_paths !! i = Some (Path path).
Proof.
  intros Hall. exists (Path <$> img_paths). split_and!.
  - unfold validate_paths.
    rewrite <-(app_nil_r img_paths) at 1.
    by rewrite validate_loop_prefix.
  - done.
  - by rewrite length_fmap.
  - intros i path Hi. by rewrite list_lookup_fmap, Hi.
Qed.

End PathFacts.

(** ** The general statements at the sample table *)

Lemma C1_size_flags_witness :
  constants_wf sample
  ∧ sanitize_input_args sample_truth sample
      (namespace sample ["a.jpg"%string]
         (switches_of ["--xs"; "--3-2"; "--5-4"]%string))
    ≠ ParserError TOO_MANY_SIZE_FLAGS
  ∧ returns (sanitize_input_args sample_truth sample
               (namespace sample ["a.jpg"%string] (switches_of ["--xs"%string])))
  ∧ sanitize_input_args sample_truth sample
      (namespace sample ["a.jpg"%string] (switches_of ["--xs"; "--md"]%string))
    = ParserError TOO_MANY_SIZE_FLAGS.
Proof.
  assert (constants_wf sample) as Hwf by sample_ok.
  split_and!; [done|..].
  - apply (C1_size_flags sample_truth sample Hwf). vm_compute. lia.
  - apply (C1_size_flags sample_truth sample Hwf); [vm_compute; lia..|done].
  - apply (C1_size_flags sample_truth sample Hwf). vm_compute. lia.
Defined.

(** C1, as stated, fails when the aspect-ratio switches conflict: with
    [--xs --3-2 --5-4] only one edge-size switch is set, yet
    sanitization does not complete; it leaves through the "too many
    aspect-ratio flags" parser error. *)
Lemma C1_counterexample :
  let s := switches_of ["--xs"; "--3-2"; "--5-4"]%string in
  size_count s ≤ 1
  ∧ ¬ returns (sanitize_input_args sample_truth sample
                 (namespace sample ["a.jpg"%string] s))
  ∧ sanitize_input_args sample_truth sample
      (namespace sample ["a.jpg"%string] s)
    = ParserError TOO_MANY_ASPECT_RATIO_FLAGS.
Proof.
  split_and!; [vm_compute; lia| |vm_compute; reflexivity].
  intros [r Hr]. vm_compute in Hr. discriminate Hr.
Qed.

(** C2, as stated, fails when two edge-size switches are set: with
    [--xs --md], no aspect-ratio switch and no equal-borders,
    sanitization does not return. *)
Lemma C2_counterexample :
  let s := switches_of ["--xs"; "--md"]%string in
  ratio_count s ≤ 1 ∧ sw_e s = false
  ∧ ¬ returns (sanitize_input_args sample_truth sample
                 (namespace sample ["a.jpg"%string] s)).
Proof.
  split_and!; [vm_compute; lia|reflexivity|].
  intros [r Hr]. vm_compute in Hr. discriminate Hr.
Qed.

Lemma C2_ratio_flags_witness :
  constants_wf sample
  ∧ returns (sanitize_input_args sample_truth sample
               (namespace sample ["a.jpg"%string]
                  (switches_of ["--lg"; "--16-9"]%string)))
  ∧ sanitize_input_args sample_truth sample
      (namespace sample ["a.jpg"%string]
         (switches_of ["--3-2"; "--9-16"]%string))
    = ParserError TOO_MANY_ASPECT_RATIO_FLAGS
  ∧ sanitize_input_args sample_truth sample
      (namespace sample ["a.jpg"%string]
         (switches_of ["--eq"; "--4-5"]%string))
    = ParserError EQUAL_BORDERS_WITH_ASPECT_RATIO.
Proof.
  assert (constants_wf sample) as Hwf by sample_ok.
  split_and!; [done|..].
  - apply (C2_ratio_flags sample_truth sample Hwf); [vm_compute; lia..|done].
  - apply (C2_ratio_flags sample_truth sample Hwf); [vm_compute; lia..|done].
  - apply (C2_ratio_flags sample_truth sample Hwf); [vm_compute; lia..|done].
Defined.

(** C3, as stated, fails when two edge-size switches are set: with
    [--lg --xl] and nothing else, no aspect ratio is returned at all. *)
Lemma C3_counterexample :
  let s := switches_of ["--lg"; "--xl"]%string in
  ratio_count s = 0 ∧ sw_e s = false
  ∧ ¬ ∃ edge_size r,
        ASPECT_RATIO_MAP sample !! RATIO_1_1 sample = Some r
        ∧ sanitize_input_args sample_truth sample
            (namespace sample ["a.jpg"%string] s)
          = Return (edge_size, Some r).
Proof.
  split_and!; [reflexivity..|].
  intros (edge_size & r & _ & Hr). vm_compute in Hr. discriminate Hr.
Qed.

Lemma C3_default_ratio_witness :
  constants_wf sample
  ∧ ∃ edge_size r,
      ASPECT_RATIO_MAP sample !! RATIO_1_1 sample = Some r
      ∧ sanitize_input_args sample_truth sample
          (namespace sample ["a.jpg"%string] (switches_of ["--sm"%string]))
        = Return (edge_size, Some r).
Proof.
  assert (constants_wf sample) as Hwf by sample_ok.
  split; [done|].
  apply (C3_default_ratio sample_truth sample Hwf); [vm_compute; lia|done..].
Defined.

(** C5, as stated, fails when two edge-size switches are set: with
    [--eq --sm --md] sanitization does not return. *)
Lemma C5_counterexample :
  let s := switches_of ["--eq"; "--sm"; "--md"]%string in
  sw_e s = true ∧ ratio_count s = 0
  ∧ ¬ ∃ edge_size,
        sanitize_input_args sample_truth sample
          (namespace sample ["a.jpg"%string] s)
        = Return (edge_size, None).
Proof.
  split_and!; [reflexivity..|].
  intros (edge_size & Hr). vm_compute in Hr. discriminate Hr.
Qed.

Lemma C5_equal_borders_witness :
  constants_wf sample
  ∧ ∃ edge_size,
      sanitize_input_args sample_truth sample
        (namespace sample ["a.jpg"%string] (switches_of ["--e"; "--xl"]%string))
      = Return (edge_size, None).
Proof.
  assert (constants_wf sample) as Hwf by sample_ok.
  split; [done|].
  apply (C5_equal_borders sample_truth sample Hwf); [vm_compute; lia|done..].
Defined.

Lemma C9_no_border_witness :
  constants_wf sample
  ∧ (∃ x aspect_ratio,
       EDGE_MAP sample !! DISABLE_BORDERS sample = Some x
       ∧ sanitize_input_args sample_truth sample
           (namespace sample ["a.jpg"%string] (switches_of ["--nb"%string]))
         = Return (Some x, aspect_ratio))
  ∧ sanitize_input_args sample_truth sample
      (namespace sample ["a.jpg"%string]
         (switches_of ["--no-border"; "--xl"]%string))
    = ParserError TOO_MANY_SIZE_FLAGS.
Proof.
  assert (constants_wf sample) as Hwf by sample_ok.
  split_and!; [done|..].
  - apply (C9_no_border sample_truth sample Hwf); [done|done|vm_compute; lia|done].
  - apply (C9_no_border sample_truth sample Hwf); [done|vm_compute; lia].
Defined.

Lemma C4_medium_default_witness :
  constants_wf sample
  ∧ ∃ x, EDGE_MAP sample !! MD_BORDERS sample = Some x
    ∧ ∀ paths input_args,
        parse_args sample_truth sample sample_environ
          {| cl_paths := ["a.jpg"%string];
             cl_switches := switches_of ["--5-4"%string] |}
        = Return (paths, input_args) →
        input_args !! EDGE_SIZE sample = Some (IEdge x).
Proof.
  assert (constants_wf sample) as Hwf by sample_ok.
  split; [done|].
  destruct (C4_medium_default sample_truth sample Hwf sample_environ
              {| cl_paths := ["a.jpg"%string];
                 cl_switches := switches_of ["--5-4"%string] |})
    as (x & Hx & Hentry & _); [reflexivity|].
  exists x. by split.
Defined.

Lemma C8_default_path_witness :
  constants_wf sample
  ∧ parser_parse_args sample "/tmp/photos"
      {| cl_paths := []; cl_switches := switches_of [] |}
    = Return (namespace sample ["/tmp/photos"%string] (switches_of [])).
Proof.
  assert (constants_wf sample) as Hwf by sample_ok.
  split; [done|].
  apply (C8_default_path sample_truth sample Hwf sample_environ
           {| cl_paths := []; cl_switches := switches_of [] |});
    [reflexivity|discriminate|reflexivity].
Defined.

Lemma C10_instagram_witness :
  constants_wf sample
  ∧ sanitize_input_args sample_truth sample
      (namespace sample ["a.jpg"%string]
         (with_ig (switches_of ["--xs"%string]) true))
    = sanitize_input_args sample_truth sample
        (namespace sample ["a.jpg"%string] (switches_of ["--xs"%string])).
Proof.
  assert (constants_wf sample) as Hwf by sample_ok.
  split; [done|].
  apply (C10_instagram sample_truth sample Hwf ["a.jpg"%string]
           (switches_of ["--xs"%string]) true sample_environ
           {| cl_paths := []; cl_switches := switches_of [] |}).
Defined.



Lemma C7_all_valid_paths_witness :
  Forall (λ path, exists_on_disk disk_path disk_is_file disk_is_dir path = true)
    ["/tmp/photos"; "./exists.jpg"]%string
  ∧ ∃ valid_paths,
      (validate_paths disk_path disk_is_file disk_is_dir
         ["/tmp/photos"; "./exists.jpg"]%string).1
      = Return valid_paths
      ∧ valid_paths = ["/tmp/photos"; "./exists.jpg"]%string.
Proof.
  assert (Forall
            (λ path, exists_on_disk disk_path disk_is_file disk_is_dir path = true)
            ["/tmp/photos"; "./exists.jpg"]%string) as Hall.
  { repeat constructor; vm_compute; reflexivity. }
  split; [done|].
  destruct (C7_all_valid_paths disk_path disk_is_file disk_is_dir _ Hall)
    as (valid_paths & Hret & Hmap & _).
  exists valid_paths. by split.
Defined.

(** ** sanitize_input_args on an arbitrary dict *)

Section AnyDict.

Context {Num AspectRatio : Type}.
Variable ratio_bool : AspectRatio → bool.
Variable c : @Constants Num AspectRatio.

Lemma args_get_key (args : Args) k : k ∈ args.*1 → is_Some (args_get args k).
Proof.
  induction args as [|[k' v'] args IH]; cbn.
  - by intros ?%elem_of_nil.
  - intros [->|Hin]%elem_of_cons; case_decide; try done; by eauto.
Qed.

Lemma flagged_cons {V} (m : gmap string V) args key keys :
  flagged m args (key :: keys)
  = option_list (flag_value m args key) ++ flagged m args keys.
Proof. unfold flagged. cbn. by destruct (flag_value m args key). Qed.

Lemma scan_edge_flag args key edge_size :
  is_Some (args_get args key) →
  scan_edge c args key edge_size
  = match flag_value (EDGE_MAP c) args key, edge_size with
    | None, _ => Return edge_size
    | Some x, None => Return (Some x)
    | Some _, Some _ => ParserError TOO_MANY_SIZE_FLAGS
    end.
Proof.
  intros [v Hv]. unfold scan_edge, flag_value, contains, getitem, map_getitem.
  rewrite Hv. destruct (EDGE_MAP c !! key) as [x|] eqn:Hx.
  - rewrite bool_decide_eq_true_2 by eauto. cbn.
    by destruct (truthy v), edge_size.
  - rewrite bool_decide_eq_false_2 by (by intros [? ?]).
    by destruct (truthy v).
Qed.

Lemma scan_ratio_flag args even_borders key aspect_ratio :
  is_Some (args_get args key) →
  scan_ratio c args even_borders key aspect_ratio
  = match flag_value (ASPECT_RATIO_MAP c) args key with
    | None => Return aspect_ratio
    | Some r =>
        if even_borders then ParserError EQUAL_BORDERS_WITH_ASPECT_RATIO
        else match aspect_ratio with
             | None => Return (Some r)
             | Some _ => ParserError TOO_MANY_ASPECT_RATIO_FLAGS
             end
    end.
Proof.
  intros [v Hv]. unfold scan_ratio, flag_value, contains, getitem, map_getitem.
  rewrite Hv. destruct (ASPECT_RATIO_MAP c !! key) as [x|] eqn:Hx.
  - rewrite bool_decide_eq_true_2 by eauto. cbn.
    by destruct (truthy v), even_borders, aspect_ratio.
  - rewrite bool_decide_eq_false_2 by (by intros [? ?]).
    by destruct (truthy v).
Qed.

(** When the loop runs to its end: never more than one value per table,
    and none from the ratio table under equal borders. *)
Lemma scan_return_iff args even_borders keys e0 a0 e a :
  Forall (λ key, is_Some (args_get args key)) keys →
  scan c args even_borders keys (e0, a0) = Return (e, a)
  ↔ (length (option_list e0 ++ flagged (EDGE_MAP c) args keys) ≤ 1
     ∧ e = head (option_list e0 ++ flagged (EDGE_MAP c) args keys))
    ∧ (length (option_list a0 ++ flagged (ASPECT_RATIO_MAP c) args keys) ≤ 1
       ∧ a = head (option_list a0 ++ flagged (ASPECT_RATIO_MAP c) args keys))
    ∧ (even_borders = true → flagged (ASPECT_RATIO_MAP c) args keys = []).
Proof.
  intros Hkeys. revert e0 a0.
  induction Hkeys as [|key keys Hkey _ IH]; intros e0 a0.
  - cbn. unfold mret, Outcome_ret. rewrite !app_nil_r. split.
    + intros [= <- <-]. by destruct e0, a0; cbn; split_and!; try lia.
    + intros ((_ & ->) & (_ & ->) & _). by destruct e0, a0.
  - cbn [scan]. rewrite !flagged_cons. cbn [fst snd].
    rewrite scan_edge_flag, scan_ratio_flag by done.
    destruct (flag_value (EDGE_MAP c) args key) as [x|],
             (flag_value (ASPECT_RATIO_MAP c) args key) as [r|];
      destruct e0 as [x0|], a0 as [r0|], even_borders; cbn;
      rewrite ?IH; cbn; try (split; [done|]);
      try (intros (_ & _ & He); by specialize (He eq_refl));
      try (intros ([? _] & _); lia); try (intros (_ & [? _] & _); lia);
      try done;
      by (split; intros ([??] & [??] & _); split_and!).
Qed.

Lemma sanitize_any_dict args eq :
  args_get args (EQUAL_BORDERS c) = Some eq →
  sanitize_input_args ratio_bool c args
  = '(edge_size, aspect_ratio) ←
      scan c args (truthy eq) args.*1 (None, None);
    if not_ratio ratio_bool aspect_ratio && negb (truthy eq) then
      r ← map_getitem (ASPECT_RATIO_MAP c) (RATIO_1_1 c);
      mret (edge_size, Some r)
    else mret (edge_size, aspect_ratio).
Proof.
  intros Heq. unfold sanitize_input_args, getitem. rewrite Heq. cbn.
  by destruct (truthy eq).
Qed.

Lemma scan_keys_present args :
  Forall (λ key, is_Some (args_get args key)) args.*1.
Proof. apply Forall_forall. intros key. apply args_get_key. Qed.

(** The loop leaves only by returning or through [parser.error]. *)
Lemma scan_outcome args even_borders keys st :
  Forall (λ key, is_Some (args_get args key)) keys →
  returns (scan c args even_borders keys st)
  ∨ ∃ m, scan c args even_borders keys st = ParserError m
         ∧ m ∈ [TOO_MANY_SIZE_FLAGS; EQUAL_BORDERS_WITH_ASPECT_RATIO;
                TOO_MANY_ASPECT_RATIO_FLAGS].
Proof.
  intros Hkeys. revert st.
  induction Hkeys as [|key keys Hkey _ IH]; intros [e0 a0].
  - left. by eexists.
  - cbn [scan fst snd]. rewrite scan_edge_flag, scan_ratio_flag by done.
    destruct (flag_value (EDGE_MAP c) args key) as [x|],
             (flag_value (ASPECT_RATIO_MAP c) args key) as [r|];
      destruct e0 as [x0|], a0 as [r0|], even_borders; cbn;
      try apply IH;
      right; eexists; (split; [done|]); set_solver.
Qed.

(** X1: on any dict, [sanitize_input_args] raises [KeyError] for the
    equal-borders name when the dict lacks it, before anything else;
    when the dict has it (and the ratio table has its 1:1 entry) the
    call either returns or leaves through [parser.error] with one of
    the three flag-conflict messages: no other [KeyError], no
    [sys.exit]. *)
Theorem X1_any_dict_outcome args :
  (args_get args (EQUAL_BORDERS c) = None →
     sanitize_input_args ratio_bool c args = KeyError (EQUAL_BORDERS c))
  ∧ (is_Some (args_get args (EQUAL_BORDERS c)) →
     is_Some (ASPECT_RATIO_MAP c !! RATIO_1_1 c) →
     returns (sanitize_input_args ratio_bool c args)
     ∨ ∃ m, sanitize_input_args ratio_bool c args = ParserError m
            ∧ m ∈ [TOO_MANY_SIZE_FLAGS; EQUAL_BORDERS_WITH_ASPECT_RATIO;
                   TOO_MANY_ASPECT_RATIO_FLAGS]).
Proof.
  split.
  - intros Hnone. unfold sanitize_input_args, getitem. by rewrite Hnone.
  - intros [eq Heq] [r11 Hr11]. rewrite (sanitize_any_dict _ _ Heq).
    destruct (scan_outcome args (truthy eq) args.*1 (None, None)
                (scan_keys_present args)) as [[[e a] ->]|(m & -> & Hm)].
    + left. cbn. unfold map_getitem. rewrite Hr11.
      destruct (_ && _); by eexists.
    + right. by exists m.
Qed.

(** X2: on any dict that has the equal-borders name, whether
    [sanitize_input_args] returns does not depend on the order of the
    keys: it returns exactly when at most one truthy key is in the
    edge-size table and the truthy keys in the ratio table are none, or
    one with equal borders falsy. *)
Theorem X2_any_dict_returns args eq :
  args_get args (EQUAL_BORDERS c) = Some eq →
  is_Some (ASPECT_RATIO_MAP c !! RATIO_1_1 c) →
  returns (sanitize_input_args ratio_bool c args)
  ↔ length (flagged (EDGE_MAP c) args args.*1) ≤ 1
    ∧ (flagged (ASPECT_RATIO_MAP c) args args.*1 = []
       ∨ length (flagged (ASPECT_RATIO_MAP c) args args.*1) = 1
         ∧ truthy eq = false).
Proof.
  intros Heq [r11 Hr11]. rewrite (sanitize_any_dict _ _ Heq).
  unfold returns. split.
  - intros [[e' a'] Hret].
    destruct (scan c args (truthy eq) args.*1 (None, None))
      as [[e a]| | | |] eqn:Hs; try done.
    apply scan_return_iff in Hs as ((He & _) & (Ha & _) & Heven);
      [|apply scan_keys_present].
    cbn [option_list app] in He, Ha. split; [done|].
    destruct (flagged (ASPECT_RATIO_MAP c) args args.*1) as [|r l]; [by left|].
    right. destruct (truthy eq); [by specialize (Heven eq_refl)|].
    split; [|done]. cbn in *. lia.
  - intros [He Ha].
    assert (scan c args (truthy eq) args.*1 (None, None)
            = Return (head (flagged (EDGE_MAP c) args args.*1),
                      head (flagged (ASPECT_RATIO_MAP c) args args.*1)))
      as ->.
    { apply scan_return_iff; [apply scan_keys_present|].
      cbn [option_list app]. split_and!; try done.
      - destruct Ha as [->|[Ha _]]; cbn; lia.
      - intros Ht. destruct Ha as [?|[_ ?]]; [done|congruence]. }
    cbn. unfold map_getitem. rewrite Hr11. destruct (_ && _); by eexists.
Qed.

(** X3: what [sanitize_input_args] returns on any dict.  The edge size
    is the table value of the truthy edge-size key, [None] without one.
    The aspect ratio is [None] under equal borders; otherwise it is the
    table value of the truthy ratio key when that object is truthy, and
    the table's 1:1 entry when there is no such key or the object is
    falsy. *)
Theorem X3_any_dict_values args eq edge_size aspect_ratio :
  args_get args (EQUAL_BORDERS c) = Some eq →
  sanitize_input_args ratio_bool c args = Return (edge_size, aspect_ratio) →
  edge_size = head (flagged (EDGE_MAP c) args args.*1)
  ∧ (truthy eq = true → aspect_ratio = None)
  ∧ (truthy eq = false →
     is_Some aspect_ratio
     ∧ aspect_ratio
       = match flagged (ASPECT_RATIO_MAP c) args args.*1 with
         | r :: _ =>
             if ratio_bool r then Some r
             else ASPECT_RATIO_MAP c !! RATIO_1_1 c
         | [] => ASPECT_RATIO_MAP c !! RATIO_1_1 c
         end).
Proof.
  intros Heq. rewrite (sanitize_any_dict _ _ Heq).
  destruct (scan c args (truthy eq) args.*1 (None, None))
    as [[e a]| | | |] eqn:Hs; try done.
  apply scan_return_iff in Hs as ((_ & ->) & (_ & ->) & Heven);
    [|apply scan_keys_present].
  cbn. unfold map_getitem, mret, Outcome_ret.
  destruct (truthy eq).
  - rewrite (Heven eq_refl). cbn. intros [= <- <-]. by split_and!.
  - destruct (flagged (ASPECT_RATIO_MAP c) args args.*1) as [|r l]; cbn;
      [|destruct (ratio_bool r); cbn];
      try (destruct (ASPECT_RATIO_MAP c !! RATIO_1_1 c) as [r11|]; cbn;
           [|done]);
      intros [= <- <-]; split_and!; try done; split; eauto.
Qed.

Lemma args_get_None (args : Args) k : k ∉ args.*1 → args_get args k = None.
Proof.
  induction args as [|[k' v'] args IH]; cbn; [done|].
  intros [Hne Hnin]%not_elem_of_cons. rewrite decide_False by done. by apply IH.
Qed.

Lemma args_get_Some (args : Args) k v :
  args_get args k = Some v → (k, v) ∈ args.
Proof.
  induction args as [|[k' v'] args IH]; cbn; [done|].
  case_decide as Hk.
  - intros [= ->]. subst k'. apply list_elem_of_here.
  - intros Hget. apply list_elem_of_further. by apply IH.
Qed.

Lemma args_get_Permutation (args args' : Args) k :
  NoDup args.*1 → args ≡ₚ args' → args_get args k = args_get args' k.
Proof.
  intros Hnd Hperm. destruct (args_get args k) as [v|] eqn:Hget.
  - symmetry. apply args_get_elem.
    + by rewrite <-Hperm.
    + rewrite <-Hperm. by apply args_get_Some.
  - symmetry. apply args_get_None. rewrite <-Hperm. intros Hin.
    apply args_get_key in Hin as [v Hv]. congruence.
Qed.

Lemma flagged_Permutation {V} (m : gmap string V) (args args' : Args) :
  NoDup args.*1 → args ≡ₚ args' →
  flagged m args args.*1 ≡ₚ flagged m args' args'.*1.
Proof.
  intros Hnd Hperm. unfold flagged.
  trans (omap (flag_value m args') args.*1).
  - erewrite list_omap_ext; [done|].
    apply Forall2_same_length_lookup_2; [done|].
    intros i k k' Hk Hk'. assert (k' = k) as -> by congruence.
    unfold flag_value. by rewrite (args_get_Permutation args args').
  - by apply omap_Permutation, fmap_Permutation.
Qed.

Lemma head_Permutation {A} (l l' : list A) :
  length l ≤ 1 → l ≡ₚ l' → l = l'.
Proof.
  intros Hlen Hperm. destruct l as [|x [|y l]]; cbn in Hlen; [| |lia].
  - by apply Permutation_nil_l.
  - by apply Permutation_singleton_l.
Qed.

(** X4: for a dict (keys unique), a result returned by
    [sanitize_input_args] does not depend on the order of the entries:
    any reordering of the dict returns the same pair. *)
Theorem X4_order_irrelevant args args' result :
  NoDup args.*1 → args ≡ₚ args' →
  sanitize_input_args ratio_bool c args = Return result →
  sanitize_input_args ratio_bool c args' = Return result.
Proof.
  intros Hnd Hperm.
  destruct (args_get args (EQUAL_BORDERS c)) as [eq|] eqn:Heq.
  - assert (args_get args' (EQUAL_BORDERS c) = Some eq) as Heq'
      by (by rewrite <-(args_get_Permutation args args')).
    rewrite (sanitize_any_dict _ _ Heq), (sanitize_any_dict _ _ Heq').
    destruct (scan c args (truthy eq) args.*1 (None, None))
      as [[e a]| | | |] eqn:Hs; try done.
    apply scan_return_iff in Hs as ((He & ->) & (Ha & ->) & Heven);
      [|apply scan_keys_present].
    cbn [option_list app] in He, Ha.
    pose proof (head_Permutation _ _ He
                  (flagged_Permutation (EDGE_MAP c) _ _ Hnd Hperm)) as HE.
    pose proof (head_Permutation _ _ Ha
                  (flagged_Permutation (ASPECT_RATIO_MAP c) _ _ Hnd Hperm)) as HA.
    assert (scan c args' (truthy eq) args'.*1 (None, None)
            = Return (head (flagged (EDGE_MAP c) args args.*1),
                      head (flagged (ASPECT_RATIO_MAP c) args args.*1)))
      as ->; [|done].
    apply scan_return_iff; [apply scan_keys_present|].
    cbn [option_list app]. rewrite <-HE, <-HA. by split_and!.
  - unfold sanitize_input_args at 1, getitem. by rewrite Heq.
Qed.

End AnyDict.

(** ** More on the namespace of a command line *)

Lemma hits_none {V} (m : gmap string V) (flags : list (string * bool)) :
  count_set flags.*2 = 0 → hits m flags = [].
Proof.
  induction flags as [|[k b] flags IH]; [done|].
  rewrite hits_cons. cbn. destruct b; [lia|]. apply IH.
Qed.

Lemma hits_single {V} (m : gmap string V) (flags : list (string * bool)) key :
  Forall (λ kb, kb.1 ∈ dom m) flags →
  (key, true) ∈ flags → count_set flags.*2 = 1 →
  ∃ x, m !! key = Some x ∧ hits m flags = [x].
Proof.
  induction 1 as [|[k b] flags [x Hx]%elem_of_dom _ IH]; intros Hin Hone.
  - by apply elem_of_nil in Hin.
  - rewrite hits_cons. cbn in Hone, Hx. destruct b.
    + assert (count_set flags.*2 = 0) as Hzero by lia.
      rewrite Hx, (hits_none _ _ Hzero).
      apply elem_of_cons in Hin as [[= ->]|Hin]; [by exists x|].
      exfalso. clear -Hin Hzero.
      induction flags as [|[k' b'] flags IH]; [by apply elem_of_nil in Hin|].
      cbn in Hzero. apply elem_of_cons in Hin as [[= <- <-]|Hin]; [done|].
      destruct b'; [done|]. by apply IH.
    + apply elem_of_cons in Hin as [[=]|Hin]. by apply IH.
Qed.

Lemma count_set_elem (flags : list (string * bool)) key :
  (key, true) ∈ flags → 1 ≤ count_set flags.*2.
Proof.
  induction flags as [|[k b] flags IH]; [by intros ?%elem_of_nil|].
  intros [[= <- <-]|Hin]%elem_of_cons; cbn; [lia|].
  specialize (IH Hin). lia.
Qed.

Section NamespaceMore.

Context {Num AspectRatio : Type}.
Variable ratio_bool : AspectRatio → bool.
Variable c : @Constants Num AspectRatio.
Hypothesis Hwf : constants_wf c.

(** Case analysis on the two hit lists of [summary]. *)
Ltac hit_cases s :=
  rewrite ?(sanitize_namespace ratio_bool c Hwf); unfold summary;
  let Hs := fresh "Hs" in let Hr := fresh "Hr" in
  pose proof (size_hits_length c Hwf s) as Hs;
  pose proof (ratio_hits_length c Hwf s) as Hr;
  let r11 := fresh "r11" in
  destruct (ratio_1_1_getitem c Hwf) as (r11 & ? & ->);
  destruct (hits (EDGE_MAP c) (size_flags c s)) as [|? [|? ?]];
  destruct (hits (ASPECT_RATIO_MAP c) (ratio_flags c s)) as [|? [|? ?]];
  destruct (sw_e s); cbn [length] in Hs, Hr; cbn -[size_count ratio_count];
  repeat match goal with |- context [ratio_bool ?r] => destruct (ratio_bool r) end;
  cbn -[size_count ratio_count]; unfold mret, Outcome_ret.

Lemma sanitize_returns_iff paths s :
  returns (sanitize_input_args ratio_bool c (namespace c paths s))
  ↔ size_count s ≤ 1 ∧ ratio_count s ≤ 1
    ∧ (sw_e s = true → ratio_count s = 0).
Proof.
  split.
  - unfold returns. hit_cases s; intros [? ?]; try done; split_and!; lia.
  - intros (Hn & Hm & He). by apply sanitize_returns.
Qed.

(** X5: on the namespace of a command line, sanitization returns
    exactly when at most one edge-size switch and at most one
    aspect-ratio switch are set and no aspect-ratio switch comes with
    equal borders; in every other case the process ends through
    [parser.error], with exit status 2. *)
Theorem X5_namespace_accepts paths s :
  (returns (sanitize_input_args ratio_bool c (namespace c paths s))
   ↔ size_count s ≤ 1 ∧ ratio_count s ≤ 1
     ∧ (sw_e s = true → ratio_count s = 0))
  ∧ (¬ returns (sanitize_input_args ratio_bool c (namespace c paths s)) →
     exit_status (sanitize_input_args ratio_bool c (namespace c paths s))
     = Some 2%Z).
Proof.
  split; [split|].
  - unfold returns. hit_cases s; intros [? ?]; try done; split_and!; lia.
  - intros (Hn & Hm & He). by apply (sanitize_returns ratio_bool c Hwf).
  - unfold returns. hit_cases s; intros Hno; try done; destruct Hno; eauto.
Qed.

Lemma size_flags_dom s : Forall (λ kb, kb.1 ∈ dom (EDGE_MAP c)) (size_flags c s).
Proof.
  pose proof (edge_map_members c Hwf) as M. unfold size_dests in M.
  repeat (apply Forall_cons in M as [? M]). by repeat constructor.
Qed.

Lemma ratio_flags_dom s :
  Forall (λ kb, kb.1 ∈ dom (ASPECT_RATIO_MAP c)) (ratio_flags c s).
Proof.
  pose proof (ratio_map_members c Hwf) as M. unfold ratio_dests in M.
  repeat (apply Forall_cons in M as [? M]). by repeat constructor.
Qed.

(** X6: whichever of the six edge-size switches is the only one set,
    sanitization returns the edge-size table's value under that
    switch's name (provided the aspect-ratio switches raise no
    error). *)
Theorem X6_single_size_value paths s key :
  (key, true) ∈ size_flags c s → size_count s = 1 →
  ratio_count s ≤ 1 → (sw_e s = true → ratio_count s = 0) →
  ∃ x aspect_ratio,
    EDGE_MAP c !! key = Some x
    ∧ sanitize_input_args ratio_bool c (namespace c paths s)
      = Return (Some x, aspect_ratio).
Proof.
  intros Hin Hone Hm He.
  destruct (hits_single (EDGE_MAP c) _ key (size_flags_dom s) Hin Hone)
    as (x & Hx & Hhits).
  exists x. rewrite (sanitize_namespace ratio_bool c Hwf). unfold summary.
  rewrite Hhits. pose proof (ratio_hits_length c Hwf s) as Hr.
  destruct (ratio_1_1_getitem c Hwf) as (r11 & _ & ->).
  destruct (hits (ASPECT_RATIO_MAP c) _) as [|r [|r' l]];
    destruct (sw_e s); cbn [length] in Hr; cbn; try lia;
    try (specialize (He eq_refl); lia);
    try destruct (ratio_bool r); cbn; eauto.
Qed.

(** X7: whichever of the three aspect-ratio switches is the only one
    set, without equal borders and with at most one edge-size switch,
    sanitization returns the ratio table's value under that switch's
    name when that object is truthy, and the table's 1:1 entry in its
    place when the object is falsy. *)
Theorem X7_single_ratio_value paths s key :
  (key, true) ∈ ratio_flags c s → ratio_count s = 1 →
  sw_e s = false → size_count s ≤ 1 →
  ∃ edge_size r r11,
    ASPECT_RATIO_MAP c !! key = Some r
    ∧ ASPECT_RATIO_MAP c !! RATIO_1_1 c = Some r11
    ∧ sanitize_input_args ratio_bool c (namespace c paths s)
      = Return (edge_size, Some (if ratio_bool r then r else r11)).
Proof.
  intros Hin Hone He Hn.
  destruct (hits_single (ASPECT_RATIO_MAP c) _ key (ratio_flags_dom s) Hin Hone)
    as (r & Hr & Hhits).
  rewrite (sanitize_namespace ratio_bool c Hwf). unfold summary.
  rewrite Hhits, He. pose proof (size_hits_length c Hwf s) as Hs.
  destruct (ratio_1_1_getitem c Hwf) as (r11 & Hr11 & ->).
  destruct (hits (EDGE_MAP c) _) as [|x [|x' l]]; cbn [length] in Hs;
    try lia; cbn; destruct (ratio_bool r) eqn:Hb; cbn;
    eexists _, r, r11; by rewrite Hb.
Qed.

(** X8: [parse_args] returns only for a command line that keeps the
    flag invariant: at most one edge-size switch, at most one
    aspect-ratio switch, no aspect-ratio switch together with equal
    borders; and only when a positional is given or POLAROID_PATH is set
    and non-empty.  The image paths it returns are then a non-empty
    list. *)
Theorem X8_parse_args_returns_only environ cl paths input_args :
  parse_args ratio_bool c environ cl = Return (paths, input_args) →
  (cl_paths cl ≠ []
   ∨ default ""%string (environ !! POLAROID_PATH c) ≠ ""%string)
  ∧ size_count (cl_switches cl) ≤ 1
  ∧ ratio_count (cl_switches cl) ≤ 1
  ∧ (sw_e (cl_switches cl) = true → ratio_count (cl_switches cl) = 0)
  ∧ ∃ p ps, paths = AStrs (p :: ps).
Proof.
  destruct (parse_args_unfold ratio_bool c Hwf environ cl) as (x & _ & ->).
  cbn zeta.
  destruct (positional_value _ _ _) as [given| | | |] eqn:Hpos; cbn; try done.
  destruct (sanitize_input_args _ _ _) as [[e a]| | | |] eqn:Hs; cbn; try done.
  unfold mret, Outcome_ret. intros [= <- <-].
  assert (returns (sanitize_input_args ratio_bool c
                     (namespace c given (cl_switches cl)))) as Hret
    by (by eexists).
  apply sanitize_returns_iff in Hret as (Hn & Hm & He).
  unfold positional_value, image_paths_nargs in Hpos.
  destruct (cl_paths cl) as [|p ps] eqn:Hpaths.
  - case_decide as Hdef; [done|]. injection Hpos as <-.
    split_and!; try done; [by right|by eexists _, _].
  - injection Hpos as <-. split_and!; try done; [by left|by eexists _, _].
Qed.

Lemma sanitize_namespace_values paths s edge_size aspect_ratio :
  sanitize_input_args ratio_bool c (namespace c paths s)
  = Return (edge_size, aspect_ratio) →
  size_count s ≤ 1
  ∧ edge_size = head (hits (EDGE_MAP c) (size_flags c s))
  ∧ (sw_e s = true → aspect_ratio = None)
  ∧ (sw_e s = false → is_Some aspect_ratio).
Proof.
  hit_cases s; intros [= <- <-]; split_and!; try done; try lia; eauto.
Qed.

(** X9: the input-args mapping returned by [parse_args] has exactly the
    three entries edge size, aspect ratio and Instagram flag.  Its
    aspect ratio is [None] under equal borders and a ratio object
    otherwise; its edge size is the table value of whichever edge-size
    switch is set. *)
Theorem X9_input_args environ cl paths input_args :
  parse_args ratio_bool c environ cl = Return (paths, input_args) →
  dom input_args = {[EDGE_SIZE c; ASPECT_RATIO c; INSTA_OPTIMISED c]}
  ∧ (sw_e (cl_switches cl) = true →
     input_args !! ASPECT_RATIO c = Some (IRatio None))
  ∧ (sw_e (cl_switches cl) = false →
     ∃ r, input_args !! ASPECT_RATIO c = Some (IRatio (Some r)))
  ∧ (∀ key, (key, true) ∈ size_flags c (cl_switches cl) →
     ∃ x, EDGE_MAP c !! key = Some x
          ∧ input_args !! EDGE_SIZE c = Some (IEdge x)).
Proof.
  destruct (parse_args_unfold ratio_bool c Hwf environ cl) as (x & _ & ->).
  cbn zeta. pose proof (wf_input_keys _ Hwf) as Hk. nodup_names Hk.
  destruct (positional_value _ _ _) as [ps| | | |]; cbn; try done.
  destruct (sanitize_input_args _ _ _) as [[e a]| | | |] eqn:Hs; cbn; try done.
  apply sanitize_namespace_values in Hs as (Hn & He & Ha & Ha').
  unfold mret, Outcome_ret. intros [= <- <-]. split_and!.
  - rewrite !dom_insert_L, dom_empty_L. apply set_eq. intros k.
    rewrite !elem_of_union, !elem_of_singleton, elem_of_empty. tauto.
  - intros Heq. rewrite lookup_insert_ne, lookup_insert_eq by done.
    by rewrite (Ha Heq).
  - intros Heq. destruct (Ha' Heq) as [r ->]. exists r.
    by rewrite lookup_insert_ne, lookup_insert_eq.
  - intros key Hin.
    assert (count_set (size_flags c (cl_switches cl)).*2 = 1) as Hone.
    { pose proof (count_set_elem _ _ Hin). unfold size_count in Hn.
      cbn in *. lia. }
    destruct (hits_single (EDGE_MAP c) _ key (size_flags_dom _) Hin Hone)
      as (y & Hy & Hhits).
    rewrite Hhits in He. subst e. exists y. split; [done|].
    by rewrite lookup_insert_ne, lookup_insert_ne, lookup_insert_eq.
Qed.


Lemma sanitize_many_sizes paths s :
  2 ≤ size_count s →
  sanitize_input_args ratio_bool c (namespace c paths s)
  = ParserError TOO_MANY_SIZE_FLAGS.
Proof. intros Hn. hit_cases s; (done || lia). Qed.

Lemma sanitize_many_ratios paths s :
  size_count s ≤ 1 → 2 ≤ ratio_count s → sw_e s = false →
  sanitize_input_args ratio_bool c (namespace c paths s)
  = ParserError TOO_MANY_ASPECT_RATIO_FLAGS.
Proof. intros Hn Hm. hit_cases s; intros He; (done || lia). Qed.

Lemma sanitize_equal_ratio paths s :
  size_count s ≤ 1 → 1 ≤ ratio_count s → sw_e s = true →
  sanitize_input_args ratio_bool c (namespace c paths s)
  = ParserError EQUAL_BORDERS_WITH_ASPECT_RATIO.
Proof. intros Hn Hm. hit_cases s; intros He; (done || lia). Qed.

(** Enumerates the members of explicit lists named by hypotheses. *)
Ltac enumerate :=
  repeat match goal with
         | H : _ ∈ _ :: _ |- _ => apply elem_of_cons in H as [->|H]
         | H : _ ∈ [] |- _ => by apply elem_of_nil in H
         end.

(** X13: two edge-size option strings on one command line.  When both
    are option strings of the same action (an alias pair, or the same
    string twice) sanitization returns; when they belong to two
    different actions it ends in the "too many size flags" error. *)
Theorem X13_size_options paths g1 g2 a b :
  g1 ∈ size_options → g2 ∈ size_options → a ∈ g1 → b ∈ g2 →
  (g1 = g2 →
     returns (sanitize_input_args ratio_bool c
                (namespace c paths (switches_of [a; b]))))
  ∧ (g1 ≠ g2 →
     sanitize_input_args ratio_bool c (namespace c paths (switches_of [a; b]))
     = ParserError TOO_MANY_SIZE_FLAGS).
Proof.
  unfold size_options. intros Hg1 Hg2 Ha Hb. enumerate; enumerate;
    (split; intros Hg;
     [first [done|apply sanitize_returns; vm_compute; (lia || done)]
     |first [done|apply sanitize_many_sizes; vm_compute; lia]]).
Qed.

(** X14: two aspect-ratio option strings on one command line, or one
    with an equal-borders option string.  Two option strings of the
    same action are accepted; two of different actions end in the "too
    many aspect-ratio flags" error; an aspect-ratio option string next
    to [--e] or [--eq] ends in the incompatibility error. *)
Theorem X14_ratio_options paths g1 g2 a b e :
  g1 ∈ ratio_options → g2 ∈ ratio_options → a ∈ g1 → b ∈ g2 →
  e ∈ ["--e"; "--eq"]%string →
  (g1 = g2 →
     returns (sanitize_input_args ratio_bool c
                (namespace c paths (switches_of [a; b]))))
  ∧ (g1 ≠ g2 →
     sanitize_input_args ratio_bool c (namespace c paths (switches_of [a; b]))
     = ParserError TOO_MANY_ASPECT_RATIO_FLAGS)
  ∧ sanitize_input_args ratio_bool c (namespace c paths (switches_of [e; a]))
    = ParserError EQUAL_BORDERS_WITH_ASPECT_RATIO.
Proof.
  unfold ratio_options. intros Hg1 Hg2 Ha Hb He. enumerate; enumerate;
    (split_and!;
     [intros Hg;
      first [done|apply sanitize_returns; vm_compute; (lia || done)]
     |intros Hg;
      first [done|apply sanitize_many_ratios; vm_compute; (lia || done)]
     |apply sanitize_equal_ratio; vm_compute; (lia || done)]).
Qed.

End NamespaceMore.

(** ** More on validate_paths *)

Section PathsMore.

Context {PathT : Type}.
Variable Path : string → PathT.
Variables is_file is_dir : PathT → FsAnswer.

Lemma validate_paths_all img_paths :
  Forall (λ path, exists_on_disk Path is_file is_dir path = true) img_paths →
  validate_paths Path is_file is_dir img_paths
  = (Return (Path <$> img_paths), queries_of Path is_file is_dir img_paths).
Proof.
  intros Hall. unfold validate_paths.
  rewrite <-(app_nil_r img_paths) at 1.
  by rewrite validate_loop_prefix.
Qed.

(** Every path passes, or there is a first one that does not. *)
Lemma all_or_first img_paths :
  Forall (λ path, exists_on_disk Path is_file is_dir path = true) img_paths
  ∨ ∃ pre bad rest,
      img_paths = pre ++ bad :: rest
      ∧ Forall (λ path, exists_on_disk Path is_file is_dir path = true) pre
      ∧ exists_on_disk Path is_file is_dir bad = false.
Proof.
  induction img_paths as [|path img_paths IH]; [left; constructor|].
  destruct (exists_on_disk Path is_file is_dir path) eqn:Hp.
  - destruct IH as [IH|(pre & bad & rest & -> & Hpre & Hbad)].
    + left. by constructor.
    + right. exists (path :: pre), bad, rest. split_and!; [done| |done].
      by constructor.
  - right. exists [], path, img_paths. by split_and!.
Qed.

Lemma absent_not_exists path :
  absent Path is_file is_dir path = true →
  exists_on_disk Path is_file is_dir path = false.
Proof.
  unfold absent, exists_on_disk.
  by destruct (is_file (Path path)) as [[]|], (is_dir (Path path)) as [[]|].
Qed.

Lemma raised_not_exists path e :
  raised Path is_file is_dir path = Some e →
  exists_on_disk Path is_file is_dir path = false.
Proof.
  unfold raised, missing, exists_on_disk.
  by destruct (is_file (Path path)) as [[]|], (is_dir (Path path)) as [[]|].
Qed.

(** The paths looked at: all of them, or those up to the first one that
    does not pass. *)
Lemma validate_paths_examined img_paths :
  ∃ k, (validate_paths Path is_file is_dir img_paths).2
       = queries_of Path is_file is_dir (take k img_paths).
Proof.
  destruct (all_or_first img_paths)
    as [Hall|(pre & bad & rest & -> & Hpre & Hbad)].
  - exists (length img_paths). by rewrite validate_paths_all, firstn_all.
  - exists (S (length pre)).
    replace (pre ++ bad :: rest) with ((pre ++ [bad]) ++ rest) at 2
      by (by rewrite <-app_assoc).
    rewrite take_app_length' by (rewrite length_app; cbn; lia).
    destruct (not_exists_cases Path is_file is_dir bad Hbad) as [Habs|[e He]].
    + by rewrite validate_paths_absent.
    + by rewrite (validate_paths_raised _ _ _ _ _ _ e).
Qed.

Lemma queries_of_elem paths q :
  q ∈ queries_of Path is_file is_dir paths →
  ∃ path, path ∈ paths
    ∧ (q = IsFile (Path path)
       ∨ q = IsDir (Path path) ∧ is_file (Path path) = Answer false).
Proof.
  induction paths as [|path paths IH]; [by intros ?%elem_of_nil|].
  rewrite queries_of_cons. intros [Hq|Hq]%elem_of_app.
  - exists path. split; [apply list_elem_of_here|]. unfold missing in Hq.
    destruct (is_file (Path path)) as [[]|] eqn:Hf; cbn in Hq.
    + apply list_elem_of_singleton in Hq. by left.
    + destruct (is_dir (Path path)); cbn in Hq;
        (apply elem_of_cons in Hq as [->|Hq]; [by left|]);
        apply list_elem_of_singleton in Hq; by right.
    + apply list_elem_of_singleton in Hq. by left.
  - destruct (IH Hq) as (p & Hp & Hcase). exists p.
    split; [by apply list_elem_of_further|done].
Qed.

Lemma queries_of_length paths :
  length (queries_of Path is_file is_dir paths) ≤ 2 * length paths.
Proof.
  induction paths as [|path paths IH]; [cbn; lia|].
  rewrite queries_of_cons, length_app. unfold missing.
  destruct (is_file (Path path)) as [[]|]; [| destruct (is_dir (Path path)) |];
    cbn; lia.
Qed.

(** X11: the three ways [validate_paths] ends.  It returns exactly when
    every path is an existing file or directory, and then returns their
    path objects in order.  It leaves through [sys.exit] with the
    "invalid paths provided" message exactly when, at the first path
    that is not, both tests answer [False].  It ends in an uncaught
    [OSError] exactly when a test raises that error at the first path
    that is not.  There is no other outcome. *)
Theorem X11_validate_paths_outcome img_paths :
  (∀ valid_paths,
     (validate_paths Path is_file is_dir img_paths).1 = Return valid_paths
     ↔ Forall (λ path, exists_on_disk Path is_file is_dir path = true)
         img_paths
       ∧ valid_paths = Path <$> img_paths)
  ∧ ((validate_paths Path is_file is_dir img_paths).1
     = SysExit INVALID_PATHS_PROVIDED
     ↔ ∃ pre bad rest,
         img_paths = pre ++ bad :: rest
         ∧ Forall (λ path, exists_on_disk Path is_file is_dir path = true) pre
         ∧ absent Path is_file is_dir bad = true)
  ∧ (∀ e,
       (validate_paths Path is_file is_dir img_paths).1 = OSError e
       ↔ ∃ pre bad rest,
           img_paths = pre ++ bad :: rest
           ∧ Forall (λ path, exists_on_disk Path is_file is_dir path = true)
               pre
           ∧ raised Path is_file is_dir bad = Some e)
  ∧ (returns (validate_paths Path is_file is_dir img_paths).1
     ∨ (validate_paths Path is_file is_dir img_paths).1
       = SysExit INVALID_PATHS_PROVIDED
     ∨ ∃ e, (validate_paths Path is_file is_dir img_paths).1 = OSError e).
Proof.
  assert (∀ pre bad rest,
            img_paths = pre ++ bad :: rest →
            Forall (λ path, exists_on_disk Path is_file is_dir path = true) pre →
            exists_on_disk Path is_file is_dir bad = false →
            ¬ Forall (λ path, exists_on_disk Path is_file is_dir path = true)
                img_paths) as Hnot.
  { intros pre bad rest -> _ Hbad [_ Hall]%Forall_app.
    apply Forall_cons in Hall as [Hb _]. congruence. }
  destruct (all_or_first img_paths)
    as [Hall|(pre & bad & rest & Heq & Hpre & Hbad)].
  - rewrite validate_paths_all by done. cbn [fst]. split_and!.
    + intros valid_paths. split; [by intros [= <-]|by intros [_ ->]].
    + split; [done|]. intros (pre & bad & rest & Heq & Hpre & Hbad).
      by destruct (Hnot _ _ _ Heq Hpre (absent_not_exists _ Hbad)).
    + intros e. split; [done|]. intros (pre & bad & rest & Heq & Hpre & Hbad).
      by destruct (Hnot _ _ _ Heq Hpre (raised_not_exists _ _ Hbad)).
    + left. by eexists.
  - specialize (Hnot _ _ _ Heq Hpre Hbad).
    assert (∀ valid_paths,
              Forall (λ path, exists_on_disk Path is_file is_dir path = true)
                img_paths ∧ valid_paths = Path <$> img_paths → False)
      as Hno by (by intros ? [? _]).
    destruct (not_exists_cases Path is_file is_dir bad Hbad) as [Habs|[e He]].
    + pose proof (validate_paths_absent Path is_file is_dir pre bad rest
                    Hpre Habs) as Hrun.
      rewrite <-Heq in Hrun. rewrite Hrun. cbn [fst]. split_and!.
      * intros valid_paths. split; [done|]. intros H. by destruct (Hno _ H).
      * split; [|done]. intros _. by exists pre, bad, rest.
      * intros e. split; [done|].
        intros (pre' & bad' & rest' & Heq' & Hpre' & Hbad').
        pose proof (validate_paths_raised Path is_file is_dir pre' bad' rest' e
                      Hpre' Hbad') as Hrun'.
        rewrite <-Heq', Hrun in Hrun'. done.
      * right. by left.
    + pose proof (validate_paths_raised Path is_file is_dir pre bad rest e
                    Hpre He) as Hrun.
      rewrite <-Heq in Hrun. rewrite Hrun. cbn [fst]. split_and!.
      * intros valid_paths. split; [done|]. intros H. by destruct (Hno _ H).
      * split; [done|].
        intros (pre' & bad' & rest' & Heq' & Hpre' & Hbad').
        pose proof (validate_paths_absent Path is_file is_dir pre' bad' rest'
                      Hpre' Hbad') as Hrun'.
        rewrite <-Heq', Hrun in Hrun'. done.
      * intros e'. split.
        -- intros [= <-]. by exists pre, bad, rest.
        -- intros (pre' & bad' & rest' & Heq' & Hpre' & Hbad').
           pose proof (validate_paths_raised Path is_file is_dir pre' bad' rest'
                         e' Hpre' Hbad') as Hrun'.
           rewrite <-Heq', Hrun in Hrun'. by injection Hrun' as ->.
      * right. right. by exists e.
Qed.

(** X12: the file-system queries of [validate_paths].  Every query is
    about the path object of one of the given strings; [is_dir] is only
    asked of a path for which [is_file] has answered [False]; and the
    queries number at most two per given path. *)
Theorem X12_validate_paths_queries img_paths :
  (∀ q, q ∈ (validate_paths Path is_file is_dir img_paths).2 →
     ∃ path, path ∈ img_paths
       ∧ (q = IsFile (Path path)
          ∨ q = IsDir (Path path) ∧ is_file (Path path) = Answer false))
  ∧ length (validate_paths Path is_file is_dir img_paths).2
    ≤ 2 * length img_paths.
Proof.
  destruct (validate_paths_examined img_paths) as [k ->]. split.
  - intros q Hq. apply queries_of_elem in Hq as (path & Hin & Hcase).
    exists path. split; [|done].
    apply elem_of_take in Hin as (i & Hi & _). by eapply list_elem_of_lookup_2.
  - pose proof (queries_of_length (take k img_paths)) as Hlen.
    rewrite length_take in Hlen. lia.
Qed.

End PathsMore.

(** ** The further statements at the sample table *)

Lemma X1_any_dict_outcome_witness :
  sanitize_input_args sample_truth sample [] = KeyError "equal_borders"
  ∧ (returns (sanitize_input_args sample_truth sample
                (reverse (namespace sample ["a.jpg"%string]
                            (switches_of ["--xs"; "--md"; "--eq"; "--3-2"]%string))))
     ∨ ∃ m, sanitize_input_args sample_truth sample
              (reverse (namespace sample ["a.jpg"%string]
                          (switches_of ["--xs"; "--md"; "--eq"; "--3-2"]%string)))
            = ParserError m
            ∧ m ∈ [TOO_MANY_SIZE_FLAGS; EQUAL_BORDERS_WITH_ASPECT_RATIO;
                   TOO_MANY_ASPECT_RATIO_FLAGS]).
Proof.
  split.
  - apply (X1_any_dict_outcome sample_truth sample []). reflexivity.
  - apply (X1_any_dict_outcome sample_truth sample); vm_compute; by eexists.
Defined.

Lemma X2_any_dict_returns_witness :
  returns (sanitize_input_args sample_truth sample
             (reverse (namespace sample ["a.jpg"%string]
                         (switches_of ["--md"; "--16-9"]%string)))).
Proof.
  apply (X2_any_dict_returns sample_truth sample _ (ABool false)).
  - reflexivity.
  - vm_compute. by eexists.
  - vm_compute. split; [lia|]. right. by split.
Defined.

Lemma X3_any_dict_values_witness :
  Some 6%Z
  = head (flagged (EDGE_MAP sample)
            (reverse (namespace sample ["a.jpg"%string]
                        (switches_of ["--md"; "--16-9"]%string)))
            (reverse (namespace sample ["a.jpg"%string]
                        (switches_of ["--md"; "--16-9"]%string))).*1).
Proof.
  apply (X3_any_dict_values sample_truth sample
           (reverse (namespace sample ["a.jpg"%string]
                       (switches_of ["--md"; "--16-9"]%string)))
           (ABool false) (Some 6%Z) (Some (16, 9)%Z)).
  - reflexivity.
  - vm_compute. reflexivity.
Defined.

Lemma X4_order_irrelevant_witness :
  sanitize_input_args sample_truth sample
    (reverse (namespace sample ["a.jpg"%string]
                (switches_of ["--lg"; "--5-4"]%string)))
  = Return (Some 8%Z, Some (5, 4)%Z).
Proof.
  apply (X4_order_irrelevant sample_truth sample
           (namespace sample ["a.jpg"%string]
              (switches_of ["--lg"; "--5-4"]%string))).
  - compute_done.
  - symmetry. apply reverse_Permutation.
  - vm_compute. reflexivity.
Defined.

Lemma X5_namespace_accepts_witness :
  constants_wf sample
  ∧ returns (sanitize_input_args sample_truth sample
               (namespace sample ["a.jpg"%string]
                  (switches_of ["--xl"; "--e"]%string)))
  ∧ exit_status (sanitize_input_args sample_truth sample
                   (namespace sample ["a.jpg"%string]
                      (switches_of ["--3-2"; "--e"]%string)))
    = Some 2%Z.
Proof.
  assert (constants_wf sample) as Hwf by sample_ok.
  split_and!; [done|..].
  - apply (X5_namespace_accepts sample_truth sample Hwf).
    vm_compute. split_and!; (lia || done).
  - apply (X5_namespace_accepts sample_truth sample Hwf).
    intros [r Hr]. vm_compute in Hr. discriminate Hr.
Defined.

Lemma X6_single_size_value_witness :
  constants_wf sample
  ∧ ∃ x aspect_ratio,
      EDGE_MAP sample !! "lg"%string = Some x
      ∧ sanitize_input_args sample_truth sample
          (namespace sample ["a.jpg"%string] (switches_of ["--large"%string]))
        = Return (Some x, aspect_ratio).
Proof.
  assert (constants_wf sample) as Hwf by sample_ok.
  split; [done|].
  apply (X6_single_size_value sample_truth sample Hwf).
  - vm_compute. among.
  - reflexivity.
  - vm_compute. lia.
  - done.
Defined.

Lemma X7_single_ratio_value_witness :
  constants_wf sample
  ∧ ∃ edge_size r r11,
      ASPECT_RATIO_MAP sample !! "5_4"%string = Some r
      ∧ ASPECT_RATIO_MAP sample !! RATIO_1_1 sample = Some r11
      ∧ sanitize_input_args (λ _, false) sample
          (namespace sample ["a.jpg"%string] (switches_of ["--4-5"%string]))
        = Return (edge_size, Some r11).
Proof.
  assert (constants_wf sample) as Hwf by sample_ok.
  split; [done|].
  apply (X7_single_ratio_value (λ _, false) sample Hwf).
  - vm_compute. among.
  - reflexivity.
  - reflexivity.
  - vm_compute. lia.
Defined.

Lemma X8_parse_args_returns_only_witness :
  constants_wf sample
  ∧ size_count (switches_of ["--sm"; "--ig"]%string) ≤ 1
  ∧ ∃ p ps, AStrs ["/tmp/photos"%string] = AStrs (p :: ps).
Proof.
  assert (constants_wf sample) as Hwf by sample_ok.
  split; [done|].
  destruct (X8_parse_args_returns_only sample_truth sample Hwf sample_environ
              {| cl_paths := [];
                 cl_switches := switches_of ["--sm"; "--ig"]%string |}
              (AStrs ["/tmp/photos"%string])
              {[ "edge_size"%string := IEdge 4%Z;
                 "aspect_ratio"%string := IRatio (Some (1, 1)%Z);
                 "insta_optimised"%string := IArg (ABool true) ]})
    as (_ & Hn & _ & _ & Hpaths).
  - vm_compute. reflexivity.
  - by split.
Defined.

Lemma X9_input_args_witness :
  constants_wf sample
  ∧ ∃ x, EDGE_MAP sample !! "xl"%string = Some x
      ∧ ({[ "edge_size"%string := IEdge 10%Z;
            "aspect_ratio"%string := IRatio None;
            "insta_optimised"%string := IArg (ABool false) ]}
         : gmap string (@InputVal Z (Z * Z))) !! EDGE_SIZE sample
        = Some (IEdge x).
Proof.
  assert (constants_wf sample) as Hwf by sample_ok.
  split; [done|].
  apply (X9_input_args sample_truth sample Hwf sample_environ
           {| cl_paths := ["a.jpg"%string];
              cl_switches := switches_of ["--xl"; "--eq"]%string |}
           (AStrs ["a.jpg"%string])).
  - vm_compute. reflexivity.
  - vm_compute. among.
Defined.


Lemma X13_size_options_witness :
  constants_wf sample
  ∧ returns (sanitize_input_args sample_truth sample
               (namespace sample ["a.jpg"%string]
                  (switches_of ["--xs"; "--extra-small"]%string)))
  ∧ sanitize_input_args sample_truth sample
      (namespace sample ["a.jpg"%string]
         (switches_of ["--xs"; "--large"]%string))
    = ParserError TOO_MANY_SIZE_FLAGS.
Proof.
  assert (constants_wf sample) as Hwf by sample_ok.
  split_and!; [done|..].
  - apply (X13_size_options sample_truth sample Hwf ["a.jpg"%string]
             ["--xs"; "--extra-small"]%string ["--xs"; "--extra-small"]%string);
      [unfold size_options; among..|done].
  - apply (X13_size_options sample_truth sample Hwf ["a.jpg"%string]
             ["--xs"; "--extra-small"]%string ["--lg"; "--large"]%string);
      [unfold size_options; among..|done].
Defined.

Lemma X14_ratio_options_witness :
  constants_wf sample
  ∧ sanitize_input_args sample_truth sample
      (namespace sample ["a.jpg"%string]
         (switches_of ["--2-3"; "--9-16"]%string))
    = ParserError TOO_MANY_ASPECT_RATIO_FLAGS.
Proof.
  assert (constants_wf sample) as Hwf by sample_ok.
  split; [done|].
  apply (X14_ratio_options sample_truth sample Hwf ["a.jpg"%string]
           ["--3-2"; "--2-3"]%string ["--16-9"; "--9-16"]%string
           "--2-3"%string "--9-16"%string "--e"%string);
    [unfold ratio_options; among..|done].
Defined.
